(** * Watercolour painting service: request orchestration, retry policy and
      the caller's generate/edit sequencing.

    A shallow embedding of [geminiService.ts] and of the state handling of
    [App.tsx].

    Conventions of the embedding.
    - A JavaScript string is a [string]: a sequence of code units, here the
      code units below 256.  Every separator and marker the program searches
      for is ASCII.
    - A value that may be [undefined] is an [option].
    - A thrown value is a [thrown]: an [Error] object with its message, or
      any other value together with what [JSON.stringify] makes of it.
    - The model service is an oracle of the number of calls made so far and
      of the request; calls, console output and timers are recorded in a
      chronological log. *)

From Stdlib Require Import String Ascii List ZArith Bool Lia.
From Equations Require Import Equations.
Import ListNotations.

Open Scope string_scope.

(* ===================================================================== *)
(** ** JavaScript string and array primitives used by the program *)
(* ===================================================================== *)

Module JS.

(** [s.startsWith(p)], the test behind [includes]. *)
Fixpoint startsWith (s p : string) : bool :=
  match p, s with
  | EmptyString, _ => true
  | String _ _, EmptyString => false
  | String a p', String b s' => Ascii.eqb a b && startsWith s' p'
  end.

(** [s.includes(sub)]. *)
Fixpoint includes (s sub : string) : bool :=
  startsWith s sub ||
  match s with
  | EmptyString => false
  | String _ s' => includes s' sub
  end.

(** Number of positions of [s] at which [sub] occurs. *)
Fixpoint occurrences (s sub : string) : nat :=
  (if startsWith s sub then 1 else 0) +
  match s with
  | EmptyString => 0
  | String _ s' => occurrences s' sub
  end.

(** Whether the code unit [c] occurs in [s]. *)
Fixpoint hasChar (c : ascii) (s : string) : bool :=
  match s with
  | EmptyString => false
  | String a s' => Ascii.eqb a c || hasChar c s'
  end.

(** [s.split(sep)] for a separator of one code unit: the segments of [s]
    between the occurrences of [sep]; never the empty array. *)
Fixpoint split (s : string) (sep : ascii) : list string :=
  match s with
  | EmptyString => [EmptyString]
  | String a s' =>
      if Ascii.eqb a sep then EmptyString :: split s' sep
      else match split s' sep with
           | seg :: segs => String a seg :: segs
           | [] => [String a EmptyString]
           end
  end.

(** [arr[i]]: [undefined] out of range. *)
Definition index {A : Type} (arr : list A) (i : nat) : option A :=
  nth_error arr i.

(** A value placed in a template literal: [undefined] prints as such. *)
Definition interpolate (v : option string) : string :=
  match v with
  | Some s => s
  | None => "undefined"
  end.

(** White space as [trim] sees it, among the code units below 256:
    TAB, LF, VT, FF, CR, SP and NBSP. *)
Definition isWhiteSpace (c : ascii) : bool :=
  let n := nat_of_ascii c in
  (Nat.leb 9 n && Nat.leb n 13) || Nat.eqb n 32 || Nat.eqb n 160.

Fixpoint trimStart (s : string) : string :=
  match s with
  | EmptyString => EmptyString
  | String a s' => if isWhiteSpace a then trimStart s' else s
  end.

Fixpoint trimEnd (s : string) : string :=
  match s with
  | EmptyString => EmptyString
  | String a s' =>
      match trimEnd s' with
      | EmptyString => if isWhiteSpace a then EmptyString else String a EmptyString
      | t => String a t
      end
  end.

Definition trim (s : string) : string := trimEnd (trimStart s).

(** Truthiness of a string: only the empty string is falsy. *)
Definition truthy (s : string) : bool :=
  match s with
  | EmptyString => false
  | String _ _ => true
  end.

(** [s.toLowerCase()] on code units below 256: the letters A-Z and the
    Latin-1 capitals (192-222 without the multiplication sign 215) move up
    by 32. *)
Definition toLowerCaseUnit (c : ascii) : ascii :=
  let n := nat_of_ascii c in
  if (Nat.leb 65 n && Nat.leb n 90)
     || (Nat.leb 192 n && Nat.leb n 222 && negb (Nat.eqb n 215))
  then ascii_of_nat (n + 32) else c.

Fixpoint toLowerCase (s : string) : string :=
  match s with
  | EmptyString => EmptyString
  | String a s' => String (toLowerCaseUnit a) (toLowerCase s')
  end.

(** The class [[a-z0-9]] under the flag [i], on code units below 256: the
    ASCII letters of both cases and the digits. *)
Definition isLetterOrDigit (c : ascii) : bool :=
  let n := nat_of_ascii c in
  (Nat.leb 97 n && Nat.leb n 122) || (Nat.leb 65 n && Nat.leb n 90)
  || (Nat.leb 48 n && Nat.leb n 57).

(** [s.replace(/[^a-z0-9]/gi, '_')] *)
Fixpoint replaceNonAlphanumeric (s : string) : string :=
  match s with
  | EmptyString => EmptyString
  | String a s' =>
      String (if isLetterOrDigit a then a else "_"%char)
             (replaceNonAlphanumeric s')
  end.

End JS.

(** The double quote and the line feed, which the prompt templates contain. *)
Definition dquote : string := String (ascii_of_nat 34) EmptyString.
Definition newline : string := String (ascii_of_nat 10) EmptyString.

(* ===================================================================== *)
(** ** geminiService.ts *)
(* ===================================================================== *)

Module GeminiService.

Import JS.

(** *** Data exchanged with the model service *)

(** Inline image data: base64 payload and media type. *)
Record Blob := mkBlob {
  data : option string;
  mimeType : option string
}.

(** A content part: text, inline image data, or neither. *)
Record Part := mkPart {
  text : option string;
  inlineData : option Blob
}.

Record Content := mkContent {
  parts : option (list Part)
}.

Record Candidate := mkCandidate {
  content : option Content
}.

Record GenerateContentResponse := mkResponse {
  candidates : option (list Candidate)
}.

Definition textPart (t : string) : Part :=
  {| text := Some t; inlineData := None |}.

Definition inlineDataPart (d m : option string) : Part :=
  {| text := None; inlineData := Some {| data := d; mimeType := m |} |}.

(** *** Thrown values, the service oracle and the log of effects *)

(** What a [catch] clause can receive: an [Error] with its message, or a
    value that is not an [Error]; [json] is then [JSON.stringify] of it,
    [None] when that yields no string. *)
Inductive thrown :=
| ErrorObj (message : string)
| NonError (json : option string).

Inductive api_outcome :=
| Fulfilled (response : GenerateContentResponse)
| Rejected (error : thrown).

(** [ai.models.generateContent]: the outcome of a call, given how many
    calls were made before it and the parts sent. *)
Definition Service := nat -> list Part -> api_outcome.

Inductive event :=
| GenerateContent (request : list Part)
| ConsoleError (attempt : Z) (error : thrown)
| SetTimeout (delay : Z).

Record World := mkWorld {
  calls : nat;
  log : list event
}.

Definition emit (e : event) (w : World) : World :=
  {| calls := calls w; log := log w ++ [e] |}.

(** Number of model invocations in a log, and the delays waited for. *)
Fixpoint invocations (l : list event) : nat :=
  match l with
  | [] => 0
  | GenerateContent _ :: l' => S (invocations l')
  | _ :: l' => invocations l'
  end.

Fixpoint suspensions (l : list event) : list Z :=
  match l with
  | [] => []
  | SetTimeout d :: l' => d :: suspensions l'
  | _ :: l' => suspensions l'
  end.

(** *** Computations: state passing with exceptions *)

Inductive completion (A : Type) :=
| Normal (value : A)
| Throw (error : thrown).
Arguments Normal {A} value.
Arguments Throw {A} error.

Definition M (A : Type) : Type := World -> completion A * World.

Definition ret {A} (a : A) : M A := fun w => (Normal a, w).

Definition throw {A} (e : thrown) : M A := fun w => (Throw e, w).

Definition bind {A B} (m : M A) (k : A -> M B) : M B :=
  fun w =>
    match m w with
    | (Normal a, w') => k a w'
    | (Throw e, w') => (Throw e, w')
    end.

Definition tryCatch {A} (body : M A) (handler : thrown -> M A) : M A :=
  fun w =>
    match body w with
    | (Normal a, w') => (Normal a, w')
    | (Throw e, w') => handler e w'
    end.

Notation "x <- m ;; k" := (bind m (fun x => k))
  (at level 61, m at next level, right associativity).
Notation "m ;;; k" := (bind m (fun _ => k))
  (at level 61, right associativity).

Definition generateContent (ai : Service) (request : list Part)
  : M GenerateContentResponse :=
  fun w =>
    let w' := {| calls := S (calls w);
                 log := log w ++ [GenerateContent request] |} in
    match ai (calls w) request with
    | Fulfilled r => (Normal r, w')
    | Rejected e => (Throw e, w')
    end.

Definition consoleError (attempt : Z) (error : thrown) : M unit :=
  fun w => (Normal tt, emit (ConsoleError attempt error) w).

(** [await new Promise(resolve => setTimeout(resolve, delay))]. *)
Definition sleep (delay : Z) : M unit :=
  fun w => (Normal tt, emit (SetTimeout delay) w).

(** *** callGeminiImageApi *)

Definition maxRetries : Z := 3.
Definition initialDelay : Z := 1500.

Definition noImageMessage : string :=
  "The AI model responded without an image.".

Definition retriesExceededMessage : string := "Maximum retries exceeded.".

(** The [TypeError] of calling a method on [undefined]. *)
Definition undefinedMethodMessage (method : string) : string :=
  "Cannot read properties of undefined (reading '" ++ method ++ "')".

(** [response.candidates?.[0]?.content?.parts?.find(part => part.inlineData)] *)
Definition findImagePart (response : GenerateContentResponse) : option Part :=
  match candidates response with
  | None => None
  | Some cs =>
      match index cs 0 with
      | None => None
      | Some c =>
          match content c with
          | None => None
          | Some ct =>
              match parts ct with
              | None => None
              | Some ps =>
                  find (fun part => match inlineData part with
                                    | Some _ => true
                                    | None => false
                                    end) ps
              end
          end
      end
  end.

(** [imagePart?.inlineData] *)
Definition optInlineData (imagePart : option Part) : option Blob :=
  match imagePart with
  | Some part => inlineData part
  | None => None
  end.

(** [`data:${mimeType};base64,${data}`] *)
Definition dataUrl (blob : Blob) : string :=
  "data:" ++ interpolate (mimeType blob) ++ ";base64," ++ interpolate (data blob).

(** How one iteration of the loop ends when it does not throw. *)
Inductive control :=
| Return (value : string)
| Continue.

(** The body of the [try]. *)
Definition tryBlock (ai : Service) (request : list Part) : M control :=
  response <- generateContent ai request ;;
  let imagePart := findImagePart response in
  match optInlineData imagePart with
  | Some blob => ret (Return (dataUrl blob))
  | None => throw (ErrorObj noImageMessage)
  end.

(** [error instanceof Error ? error.message : JSON.stringify(error)] *)
Definition errorMessage (error : thrown) : option string :=
  match error with
  | ErrorObj message => Some message
  | NonError json => json
  end.

Definition isRetryable (errorMessage : string) : bool :=
  includes errorMessage "429" || includes errorMessage "500"
  || includes errorMessage "INTERNAL".

(** [error instanceof Error ? error.message : "Failed to generate image."] *)
Definition rethrownMessage (error : thrown) : string :=
  match error with
  | ErrorObj message => message
  | NonError _ => "Failed to generate image."
  end.

(** The body of the [catch].  [attempt] is at least 1 in every run, where
    [Math.pow(2, attempt - 1)] is the integer power. *)
Definition catchBlock (attempt : Z) (error : thrown) : M control :=
  consoleError attempt error ;;;
  match errorMessage error with
  | None => throw (ErrorObj (undefinedMethodMessage "includes"))
  | Some msg =>
      if isRetryable msg && (attempt <? maxRetries)%Z then
        let delay := (initialDelay * 2 ^ (attempt - 1))%Z in
        sleep delay ;;;
        ret Continue
      else
        throw (ErrorObj (rethrownMessage error))
  end.

(** [for (let attempt = ...; attempt <= maxRetries; attempt++) { try ... }]
    from the given value of [attempt].  The result is [Some] of the returned
    string when an iteration returns, [None] when the loop condition fails
    and control leaves the loop. *)
Definition attemptsLeft (attempt : Z) : nat :=
  Z.to_nat (maxRetries + 1 - attempt).
Arguments attemptsLeft : simpl never.

Equations? forLoop (ai : Service) (request : list Part) (attempt : Z) (w : World)
  : completion (option string) * World
  by wf (attemptsLeft attempt) lt :=
forLoop ai request attempt w with Z_le_gt_dec attempt maxRetries := {
  | left _ with tryCatch (tryBlock ai request) (catchBlock attempt) w := {
      | (Normal (Return value), w') := (Normal (Some value), w');
      | (Normal Continue, w') := forLoop ai request (attempt + 1) w';
      | (Throw e, w') := (Throw e, w') };
  | right _ := (Normal None, w) }.
Proof. unfold attemptsLeft, maxRetries in *. lia. Qed.

Definition callGeminiImageApi (ai : Service) (request : list Part) : M string :=
  fun w =>
    match forLoop ai request 1 w with
    | (Normal (Some value), w') => (Normal value, w')
    | (Normal None, w') => (Throw (ErrorObj retriesExceededMessage), w')
    | (Throw e, w') => (Throw e, w')
    end.

(** *** generateWatercolourPainting *)

Definition generatePromptPrefix : string :=
  "A breathtaking, high-quality traditional watercolor painting of ".

Definition generatePromptSuffix : string :=
  ". " ++ newline ++
  "    The style should feature artistic brushstrokes, gentle color bleeds, and visible paper texture. " ++ newline ++
  "    Focus on capturing the iconic essence and atmosphere of the location. " ++ newline ++
  "    Add a subtle, elegant artist signature that says " ++ dquote ++ "Gemini" ++ dquote ++ " in the bottom right corner." ++ newline ++
  "    Ensure the composition is balanced and the colors are vibrant yet natural.".

Definition generatePrompt (placeName : string) : string :=
  generatePromptPrefix ++ placeName ++ generatePromptSuffix.

Definition generateWatercolourPainting (ai : Service) (placeName : string)
  : M string :=
  let prompt := generatePrompt placeName in
  callGeminiImageApi ai [textPart prompt].

(** *** editWatercolourPainting *)

Definition editPromptText (editPrompt originalPlace : string) : string :=
  "Modify this watercolor painting of " ++ originalPlace ++ ". " ++ newline ++
  "    Your instruction is: " ++ dquote ++ editPrompt ++ dquote ++ ". " ++ newline ++
  "    Maintain the existing artistic watercolor style, brushstrokes, and paper texture. " ++ newline ++
  "    Keep the core composition of " ++ originalPlace ++ " but apply the changes requested." ++ newline ++
  "    Ensure the result remains a beautiful, cohesive watercolor masterpiece." ++ newline ++
  "    Ensure the signature " ++ dquote ++ "Gemini" ++ dquote ++ " remains in the bottom right corner.".

(** The two [const] lines that take the data URL apart.  A method call on
    [undefined] would throw; [None] stands for that. *)
Definition parseDataUrl (base64ImageDataUrl : string)
  : option (option string * option string) :=
  let base64Data := index (split base64ImageDataUrl ","%char) 1 in
  match index (split base64ImageDataUrl ";"%char) 0 with
  | None => None
  | Some scheme =>
      let mimeType := index (split scheme ":"%char) 1 in
      Some (base64Data, mimeType)
  end.

Definition editWatercolourPainting (ai : Service)
  (base64ImageDataUrl editPrompt originalPlace : string) : M string :=
  match parseDataUrl base64ImageDataUrl with
  | None => throw (ErrorObj (undefinedMethodMessage "split"))
  | Some (base64Data, mimeType) =>
      let prompt := editPromptText editPrompt originalPlace in
      callGeminiImageApi ai [inlineDataPart base64Data mimeType; textPart prompt]
  end.

End GeminiService.

(* ===================================================================== *)
(** ** App.tsx: the state of the component and its event handlers *)
(* ===================================================================== *)

Module App.

Import JS GeminiService.

Definition SUGGESTIONS : list string :=
  [ "The Eiffel Tower at sunset";
    "A snowy street in Kyoto";
    "Santorini's blue domes";
    "Grand Canyon during golden hour";
    "A cozy cottage in the English Cotswolds";
    "Mount Fuji mirrored in a lake" ].

(** The [useState] cells of the component. *)
Record State := mkState {
  place : string;
  editPrompt : string;
  error : option string;
  isLoading : bool;
  isEditing : bool;
  watercolourPainting : string;
  currentSuggestionIndex : nat
}.

Definition initialState : State :=
  {| place := ""; editPrompt := ""; error := None; isLoading := false;
     isEditing := false; watercolourPainting := "";
     currentSuggestionIndex := 0 |}.

Definition setPlace (v : string) (st : State) : State :=
  {| place := v; editPrompt := editPrompt st; error := error st;
     isLoading := isLoading st; isEditing := isEditing st;
     watercolourPainting := watercolourPainting st;
     currentSuggestionIndex := currentSuggestionIndex st |}.

Definition setEditPrompt (v : string) (st : State) : State :=
  {| place := place st; editPrompt := v; error := error st;
     isLoading := isLoading st; isEditing := isEditing st;
     watercolourPainting := watercolourPainting st;
     currentSuggestionIndex := currentSuggestionIndex st |}.

Definition setError (v : option string) (st : State) : State :=
  {| place := place st; editPrompt := editPrompt st; error := v;
     isLoading := isLoading st; isEditing := isEditing st;
     watercolourPainting := watercolourPainting st;
     currentSuggestionIndex := currentSuggestionIndex st |}.

Definition setIsLoading (v : bool) (st : State) : State :=
  {| place := place st; editPrompt := editPrompt st; error := error st;
     isLoading := v; isEditing := isEditing st;
     watercolourPainting := watercolourPainting st;
     currentSuggestionIndex := currentSuggestionIndex st |}.

Definition setIsEditing (v : bool) (st : State) : State :=
  {| place := place st; editPrompt := editPrompt st; error := error st;
     isLoading := isLoading st; isEditing := v;
     watercolourPainting := watercolourPainting st;
     currentSuggestionIndex := currentSuggestionIndex st |}.

Definition setWatercolourPainting (v : string) (st : State) : State :=
  {| place := place st; editPrompt := editPrompt st; error := error st;
     isLoading := isLoading st; isEditing := isEditing st;
     watercolourPainting := v;
     currentSuggestionIndex := currentSuggestionIndex st |}.

Definition setCurrentSuggestionIndex (v : nat) (st : State) : State :=
  {| place := place st; editPrompt := editPrompt st; error := error st;
     isLoading := isLoading st; isEditing := isEditing st;
     watercolourPainting := watercolourPainting st;
     currentSuggestionIndex := v |}.

(** [err instanceof Error ? err.message : fallback] *)
Definition messageOr (fallback : string) (err : thrown) : string :=
  match err with
  | ErrorObj message => message
  | NonError _ => fallback
  end.

(** [handleGenerate].  While the request is awaited every control that
    could start another handler is disabled, so the handler is one step. *)
Definition handleGenerate (ai : Service) (st : State) (w : World)
  : State * World :=
  let targetPlace := trim (place st) in
  if negb (truthy targetPlace) then
    (setError (Some "Please enter a place or description.") st, w)
  else
    let st := setIsLoading true st in
    let st := setError None st in
    let st := setWatercolourPainting "" st in
    let st := setEditPrompt "" st in
    match generateWatercolourPainting ai targetPlace w with
    | (Normal paintingDataUrl, w') =>
        (setIsLoading false (setWatercolourPainting paintingDataUrl st), w')
    | (Throw err, w') =>
        (setIsLoading false
           (setError (Some (messageOr "Failed to generate watercolor painting." err)) st),
         w')
    end.

(** [handleEdit]. *)
Definition handleEdit (ai : Service) (st : State) (w : World)
  : State * World :=
  if negb (truthy (trim (editPrompt st)))
     || negb (truthy (watercolourPainting st)) then (st, w)
  else
    let st0 := setError None (setIsEditing true st) in
    match editWatercolourPainting ai (watercolourPainting st) (editPrompt st)
            (place st) w with
    | (Normal refinedPainting, w') =>
        (setIsEditing false
           (setEditPrompt "" (setWatercolourPainting refinedPainting st0)), w')
    | (Throw err, w') =>
        (setIsEditing false
           (setError (Some (messageOr "Failed to refine the painting." err)) st0),
         w')
    end.

(** What the user and the timers can do to the rendered component. *)
Inductive UiEvent :=
| ChangePlace (value : string)
| SubmitGenerate
| ChangeEditPrompt (value : string)
| SubmitEdit
| ClickSuggestion (suggestion : string)
| SuggestionTick.

Definition generateDisabled (st : State) : bool :=
  isLoading st || isEditing st || negb (truthy (trim (place st))).

(** The refine form is rendered when [watercolourPainting && !isLoading]. *)
Definition refineFormShown (st : State) : bool :=
  truthy (watercolourPainting st) && negb (isLoading st).

Definition editDisabled (st : State) : bool :=
  isEditing st || negb (truthy (trim (editPrompt st))).

(** One event on the rendered component: a disabled or absent control
    ignores it, otherwise its handler runs.  A click on a suggestion sets the
    place and, 10 ms later, clicks the generate button of the component
    rendered by then. *)
Definition dispatch (ai : Service) (ev : UiEvent) (st : State) (w : World)
  : State * World :=
  match ev with
  | ChangePlace value =>
      if isLoading st || isEditing st then (st, w) else (setPlace value st, w)
  | SubmitGenerate =>
      if generateDisabled st then (st, w) else handleGenerate ai st w
  | ChangeEditPrompt value =>
      if refineFormShown st && negb (isEditing st)
      then (setEditPrompt value st, w) else (st, w)
  | SubmitEdit =>
      if refineFormShown st && negb (editDisabled st)
      then handleEdit ai st w else (st, w)
  | ClickSuggestion suggestion =>
      if isLoading st || isEditing st then (st, w)
      else
        let st := setPlace suggestion st in
        if generateDisabled st then (st, w) else handleGenerate ai st w
  | SuggestionTick =>
      (setCurrentSuggestionIndex
         (Nat.modulo (currentSuggestionIndex st + 1) (List.length SUGGESTIONS)) st,
       w)
  end.

Fixpoint run (ai : Service) (evs : list UiEvent) (st : State) (w : World)
  : State * World :=
  match evs with
  | [] => (st, w)
  | ev :: evs' =>
      let '(st', w') := dispatch ai ev st w in
      run ai evs' st' w'
  end.

(** The anchor element that [handleDownload] builds and clicks. *)
Record DownloadLink := mkDownloadLink {
  href : string;
  download : string
}.

(** [handleDownload]: [None] when it returns without doing anything,
    otherwise the link it clicks.  The state is left as it is. *)
Definition handleDownload (st : State) : option DownloadLink :=
  if negb (truthy (watercolourPainting st)) then None
  else
    let safeName := toLowerCase (replaceNonAlphanumeric (place st)) in
    Some {| href := watercolourPainting st;
            download := "watercolor_"
                        ++ (if truthy safeName then safeName else "painting")
                        ++ ".png" |}.

End App.

(* ===================================================================== *)
(** ** Vocabulary of the specification *)
(* ===================================================================== *)

Module Spec.

Import JS GeminiService.

(** The failure's message text contains "429", "500" or the internal-error
    marker. *)
Definition carriesRetryMarker (error : thrown) : Prop :=
  exists msg,
    errorMessage error = Some msg /\
    (includes msg "429" = true \/ includes msg "500" = true \/
     includes msg "INTERNAL" = true).

(** The world after [n] more model calls and the effects [trace]. *)
Definition extended (w : World) (n : nat) (trace : list event) : World :=
  {| calls := n + calls w; log := (log w ++ trace)%list |}.

(** The world once [request] has been sent to the model one more time. *)
Definition sent (request : list Part) (w : World) : World :=
  {| calls := S (calls w); log := log w ++ [GenerateContent request] |}.

(** A content part that carries inline image data. *)
Definition hasInlineData (part : Part) : bool :=
  match inlineData part with
  | Some _ => true
  | None => false
  end.

(** A candidate one of whose content parts carries inline image data. *)
Definition candidateHasImage (c : Candidate) : bool :=
  match content c with
  | Some ct =>
      match parts ct with
      | Some ps => existsb hasInlineData ps
      | None => false
      end
  | None => false
  end.

(** Some candidate of the response carries inline image data. *)
Definition someCandidateHasImage (r : GenerateContentResponse) : bool :=
  match candidates r with
  | Some cs => existsb candidateHasImage cs
  | None => false
  end.

(** The first candidate of the response carries inline image data. *)
Definition firstCandidateHasImage (r : GenerateContentResponse) : bool :=
  match candidates r with
  | Some (c :: _) => candidateHasImage c
  | _ => false
  end.

(** [blob] is the inline image data of the first content part that has any,
    in the first candidate of the response. *)
Definition firstImageOfFirstCandidate
  (r : GenerateContentResponse) (blob : Blob) : Prop :=
  exists c cs ct before part after,
    candidates r = Some (c :: cs) /\
    content c = Some ct /\
    parts ct = Some (before ++ part :: after)%list /\
    (forall p, In p before -> inlineData p = None) /\
    inlineData part = Some blob.

(** The stylistic requests that the generate prompt makes after naming the
    place: style, focus, signature and composition, each without its final
    full stop. *)
Definition stylisticRequests : list string :=
  [ "The style should feature artistic brushstrokes, gentle color bleeds, and visible paper texture";
    "Focus on capturing the iconic essence and atmosphere of the location";
    "Add a subtle, elegant artist signature that says " ++ dquote ++ "Gemini" ++ dquote ++ " in the bottom right corner";
    "Ensure the composition is balanced and the colors are vibrant yet natural" ].

(** The non-empty suffixes of a string, longest first, and those among them
    that are shorter than the string. *)
Fixpoint tails (s : string) : list string :=
  match s with
  | EmptyString => []
  | String _ s' => s :: tails s'
  end.

Definition properTails (s : string) : list string :=
  match s with
  | EmptyString => []
  | String _ s' => tails s'
  end.

(** No occurrence of [p] can begin in a string that ends with [a] unless it
    begins after [a]: no non-empty suffix of [a] begins with [p] or begins
    [p]. *)
Definition clearOf (a p : string) : bool :=
  forallb (fun s => negb (startsWith s p) && negb (startsWith p s)) (tails a).

(** No occurrence of [p] can end in a string that begins with [b] unless it
    lies within [b]: [b] begins with no shorter non-empty suffix of [p]. *)
Definition clearBefore (b p : string) : bool :=
  forallb (fun q => negb (startsWith b q)) (properTails p).

(** A place description that repeats one of the requests. *)
Definition placeWithRequest : string :=
  "Paris. Focus on capturing the iconic essence and atmosphere of the location".

(** A service that rejects every call with [e], and one that answers every
    call with the response [r]. *)
Definition alwaysRejects (e : thrown) : Service :=
  fun _ _ => Rejected e.

Definition alwaysAnswers (r : GenerateContentResponse) : Service :=
  fun _ _ => Fulfilled r.

(** A service that rejects with [e] until the call numbered [n], and then
    answers [r]. *)
Definition failsUntil (n : nat) (e : thrown) (r : GenerateContentResponse)
  : Service :=
  fun k _ => if Nat.ltb k n then Rejected e else Fulfilled r.

Definition emptyWorld : World := {| calls := 0; log := [] |}.

(** A response whose only candidate holds a text part and then a PNG. *)
Definition pngResponse : GenerateContentResponse :=
  {| candidates := Some
       [ {| content := Some
              {| parts := Some [ textPart "Here is your painting.";
                                 inlineDataPart (Some "iVBORw0KGgo=")
                                   (Some "image/png") ] |} |} ] |}.

(** A response whose first candidate holds text only and whose second
    candidate holds a PNG. *)
Definition imageInSecondCandidate : GenerateContentResponse :=
  {| candidates := Some
       [ {| content := Some {| parts := Some [ textPart "No image here." ] |} |};
         {| content := Some
              {| parts := Some [ inlineDataPart (Some "iVBORw0KGgo=")
                                   (Some "image/png") ] |} |} ] |}.

End Spec.

(** A session of the component: paint Paris, then type another place into
    the place field and, without painting it, refine the picture shown. *)
Module Session.

Import App.

Definition placeChangedBeforeEdit : list UiEvent :=
  [ ChangePlace "Paris"; SubmitGenerate;
    ChangePlace "Rome"; ChangeEditPrompt "add a boat"; SubmitEdit ].

(** The same with a place typed with blanks around it and left alone. *)
Definition paddedPlace : list UiEvent :=
  [ ChangePlace "  Paris "; SubmitGenerate;
    ChangeEditPrompt "add a boat"; SubmitEdit ].

End Session.


(* ===================================================================== *)
(** ** Vocabulary for runs of the retry loop and of the component *)
(* ===================================================================== *)

Module Runs.

Import JS GeminiService Spec App.

(** The attempt answered by call number [k] fails with [e]: the service
    rejects with [e], or it answers without an image in the first candidate
    and [e] is the no-image error. *)
Definition attemptFails (ai : Service) (request : list Part) (k : nat)
  (e : thrown) : Prop :=
  ai k request = Rejected e \/
  exists r, ai k request = Fulfilled r /\
            optInlineData (findImagePart r) = None /\
            e = ErrorObj noImageMessage.

(** The message of the error that the handler throws on for the failure
    [e]: the rethrown message, or the [TypeError] of [includes] when the
    failure has no text. *)
Definition thrownOn (e : thrown) (m : string) : Prop :=
  (exists msg, errorMessage e = Some msg /\ m = rethrownMessage e) \/
  (errorMessage e = None /\ m = undefinedMethodMessage "includes").

(** The runs of the loop from [attempt], when [k] calls were made before:
    the effects in order and how the loop ends.
    - the service answers with an image: the data URL is returned;
    - the attempt fails without marker, or at the last attempt: console
      output and a throw;
    - the attempt fails with a marker before the last attempt: console
      output, the wait, and the run goes on from the next attempt. *)
Inductive attempts (ai : Service) (request : list Part)
  : Z -> nat -> list event -> completion (option string) -> Prop :=
| attempts_image attempt k r blob :
    ai k request = Fulfilled r ->
    optInlineData (findImagePart r) = Some blob ->
    attempts ai request attempt k
      [GenerateContent request] (Normal (Some (dataUrl blob)))
| attempts_throw attempt k e m :
    attemptFails ai request k e ->
    ~ carriesRetryMarker e \/ (maxRetries <= attempt)%Z ->
    thrownOn e m ->
    attempts ai request attempt k
      [GenerateContent request; ConsoleError attempt e]
      (Throw (ErrorObj m))
| attempts_retry attempt k e trace out :
    ai k request = Rejected e ->
    carriesRetryMarker e ->
    (attempt < maxRetries)%Z ->
    attempts ai request (attempt + 1) (S k) trace out ->
    attempts ai request attempt k
      (GenerateContent request :: ConsoleError attempt e
       :: SetTimeout (initialDelay * 2 ^ (attempt - 1)) :: trace)
      out.

(** The last element of a log. *)
Definition lastEvent (trace : list event) : option event :=
  last (map Some trace) None.

(** A string that [callGeminiImageApi] can return. *)
Definition isDataUrl (s : string) : Prop := exists blob, s = dataUrl blob.

(** The requests that the two service functions build. *)
Definition generateRequest (placeName : string) : list Part :=
  [textPart (generatePrompt placeName)].

Definition editRequest (base64Data mimeType : option string)
  (editPrompt originalPlace : string) : list Part :=
  [inlineDataPart base64Data mimeType;
   textPart (editPromptText editPrompt originalPlace)].

(** A request as the component sends it: a generate request for a place
    description that is trimmed and not empty, or an edit request with a
    payload and a media type and an instruction that is not blank. *)
Definition componentRequest (request : list Part) : Prop :=
  (exists placeName,
      request = generateRequest placeName /\
      trim placeName = placeName /\ placeName <> ""%string) \/
  (exists d m editPrompt originalPlace,
      request = editRequest (Some d) (Some m) editPrompt originalPlace /\
      trim editPrompt <> ""%string).

(** A request made for the place field [p]: the generate request for [p]
    trimmed, or an edit request that names [p] as it stands. *)
Definition placeRequest (p : string) (request : list Part) : Prop :=
  request = generateRequest (trim p) \/
  exists d m editPrompt, request = editRequest d m editPrompt p.

Definition requestsOf (trace : list event) : list (list Part) :=
  flat_map (fun ev => match ev with
                      | GenerateContent request => [request]
                      | _ => []
                      end) trace.

(** No handler is running. *)
Definition quiescent (st : State) : Prop :=
  isLoading st = false /\ isEditing st = false.

(** What holds of the component between two events. *)
Definition settled (st : State) : Prop :=
  quiescent st /\
  currentSuggestionIndex st < List.length SUGGESTIONS /\
  (watercolourPainting st = ""%string \/ isDataUrl (watercolourPainting st)).

(** The timer ticks among the events. *)
Fixpoint ticks (evs : list UiEvent) : nat :=
  match evs with
  | [] => 0
  | SuggestionTick :: evs' => S (ticks evs')
  | _ :: evs' => ticks evs'
  end.

(** Events that leave the place field alone. *)
Definition leavesPlace (ev : UiEvent) : bool :=
  match ev with
  | ChangePlace _ | ClickSuggestion _ => false
  | _ => true
  end.

(** The characters of a download name between prefix and extension:
    lower-case ASCII letters, digits and the underscore. *)
Definition isSafeNameUnit (c : ascii) : bool :=
  let n := nat_of_ascii c in
  (Nat.leb 97 n && Nat.leb n 122) || (Nat.leb 48 n && Nat.leb n 57)
  || Nat.eqb n 95.

Fixpoint allUnits (p : ascii -> bool) (s : string) : bool :=
  match s with
  | EmptyString => true
  | String a s' => p a && allUnits p s'
  end.

(** A component that shows the picture painted for "Paris" and holds an
    instruction in the refine field. *)
Definition showingParis : State :=
  {| place := "Paris"; editPrompt := "add a boat"; error := None;
     isLoading := false; isEditing := false;
     watercolourPainting := "data:image/png;base64,iVBORw0KGgo=";
     currentSuggestionIndex := 2 |}.

End Runs.
(* ===================================================================== *)
(** ** Facts about the string primitives *)
(* ===================================================================== *)

Module JSFacts.

Import JS.

Lemma append_empty_r (s : string) : s ++ "" = s.
Proof. induction s as [|a s IH]; simpl; [reflexivity | now rewrite IH]. Qed.

Lemma append_assoc (a b c : string) : (a ++ b) ++ c = a ++ b ++ c.
Proof. induction a as [|x a IH]; simpl; [reflexivity | now rewrite IH]. Qed.

Lemma startsWith_append (p r : string) : startsWith (p ++ r) p = true.
Proof.
  induction p as [|a p IH]; simpl.
  - now destruct r.
  - now rewrite Ascii.eqb_refl, IH.
Qed.

Lemma startsWith_inv (s p : string) :
  startsWith s p = true -> exists r, s = p ++ r.
Proof.
  revert s; induction p as [|a p IH]; intros s H.
  - now exists s.
  - destruct s as [|b s]; simpl in H; [discriminate|].
    apply andb_true_iff in H as [Hab Hs].
    apply Ascii.eqb_eq in Hab; subst b.
    destruct (IH _ Hs) as [r ->]. now exists r.
Qed.

Lemma includes_here (s sub : string) :
  startsWith s sub = true -> includes s sub = true.
Proof. intros H; destruct s; simpl in *; now rewrite H. Qed.

Lemma includes_skip (a s sub : string) :
  includes s sub = true -> includes (a ++ s) sub = true.
Proof.
  intros H; induction a as [|x a IH]; simpl; [exact H|].
  rewrite IH. apply orb_true_r.
Qed.

(** [includes] finds [sub] wherever it stands in the string. *)
Lemma includes_infix (a sub b : string) : includes (a ++ sub ++ b) sub = true.
Proof. apply includes_skip, includes_here, startsWith_append. Qed.

Lemma includes_inv (s sub : string) :
  includes s sub = true -> exists a b, s = a ++ sub ++ b.
Proof.
  induction s as [|x s IH]; intros H.
  - change (startsWith "" sub || false = true) in H.
    rewrite orb_false_r in H. apply startsWith_inv in H as [r H].
    exists "", r. exact H.
  - change (startsWith (String x s) sub || includes s sub = true) in H.
    apply orb_true_iff in H as [H|H].
    + apply startsWith_inv in H as [r H]. exists "", r. exact H.
    + destruct (IH H) as (a & b & ->). now exists (String x a), b.
Qed.

Lemma includes_iff (s sub : string) :
  includes s sub = true <-> exists a b, s = a ++ sub ++ b.
Proof.
  split; [apply includes_inv|]. intros (a & b & ->). apply includes_infix.
Qed.

Lemma hasChar_append (c : ascii) (a b : string) :
  hasChar c (a ++ b) = hasChar c a || hasChar c b.
Proof.
  induction a as [|x a IH]; simpl; [reflexivity|].
  now rewrite IH, orb_assoc.
Qed.

(** [split] never yields the empty array: element 0 is always there. *)
Lemma split_cons (s : string) (sep : ascii) :
  exists seg segs, split s sep = seg :: segs.
Proof.
  induction s as [|a s (seg & segs & IH)]; simpl; [now eexists; eexists|].
  destruct (Ascii.eqb a sep); [now eexists; eexists|].
  rewrite IH. now eexists; eexists.
Qed.

(** Without the separator the string is the only segment. *)
Lemma split_absent (s : string) (sep : ascii) :
  hasChar sep s = false -> split s sep = [s].
Proof.
  induction s as [|a s IH]; simpl; [reflexivity|]. intros H.
  apply orb_false_iff in H as [Ha Hs].
  now rewrite Ha, (IH Hs).
Qed.

(** The first segment ends at the first separator. *)
Lemma split_first (a b : string) (sep : ascii) :
  hasChar sep a = false ->
  split (a ++ String sep b) sep = a :: split b sep.
Proof.
  induction a as [|x a IH]; simpl; intros H.
  - now rewrite Ascii.eqb_refl.
  - apply orb_false_iff in H as [Hx Ha].
    now rewrite Hx, (IH Ha).
Qed.

End JSFacts.

(* ===================================================================== *)
(** ** The retry policy of callGeminiImageApi *)
(* ===================================================================== *)

Module RetryPolicy.

Import JS GeminiService Spec.
Local Open Scope list_scope.

Lemma isRetryable_iff (msg : string) :
  isRetryable msg = true <->
  includes msg "429" = true \/ includes msg "500" = true \/
  includes msg "INTERNAL" = true.
Proof.
  unfold isRetryable. rewrite !orb_true_iff. tauto.
Qed.

Lemma carriesRetryMarker_message (error : thrown) (msg : string) :
  errorMessage error = Some msg ->
  (carriesRetryMarker error <-> isRetryable msg = true).
Proof.
  intros E. rewrite isRetryable_iff. unfold carriesRetryMarker. split.
  - intros (m & Hm & H). congruence.
  - intros H. now exists msg.
Qed.

Lemma carriesRetryMarker_none (error : thrown) :
  errorMessage error = None -> ~ carriesRetryMarker error.
Proof. intros E (m & Hm & _). congruence. Qed.

(** *** One iteration *)

Lemma tryBlock_rejected ai request w e :
  ai (calls w) request = Rejected e ->
  tryBlock ai request w = (Throw e, sent request w).
Proof.
  intros H. unfold tryBlock, bind, generateContent. now rewrite H.
Qed.

Lemma tryBlock_fulfilled ai request w r :
  ai (calls w) request = Fulfilled r ->
  tryBlock ai request w =
  (match optInlineData (findImagePart r) with
   | Some blob => Normal (Return (dataUrl blob))
   | None => Throw (ErrorObj noImageMessage)
   end, sent request w).
Proof.
  intros H. unfold tryBlock, bind, generateContent. rewrite H.
  now destruct (optInlineData (findImagePart r)).
Qed.

Lemma tryBlock_world ai request w :
  snd (tryBlock ai request w) = sent request w.
Proof.
  destruct (ai (calls w) request) as [r|e] eqn:H.
  - now rewrite (tryBlock_fulfilled _ _ _ _ H).
  - now rewrite (tryBlock_rejected _ _ _ _ H).
Qed.

Lemma tryBlock_not_continue ai request w :
  fst (tryBlock ai request w) <> Normal Continue.
Proof.
  destruct (ai (calls w) request) as [r|e] eqn:H.
  - rewrite (tryBlock_fulfilled _ _ _ _ H).
    now destruct (optInlineData (findImagePart r)).
  - now rewrite (tryBlock_rejected _ _ _ _ H).
Qed.

(** A failure that carries a marker, before the last attempt: the handler
    waits and the loop goes on. *)
Lemma catchBlock_retry attempt error w :
  carriesRetryMarker error -> (attempt < maxRetries)%Z ->
  catchBlock attempt error w =
  (Normal Continue,
   emit (SetTimeout (initialDelay * 2 ^ (attempt - 1)))
     (emit (ConsoleError attempt error) w)).
Proof.
  intros (msg & Hm & Hr) Hlt. apply isRetryable_iff in Hr.
  apply Z.ltb_lt in Hlt.
  unfold catchBlock, bind, consoleError, sleep, ret. simpl.
  now rewrite Hm, Hr, Hlt.
Qed.

(** The same failure at the last attempt is thrown on. *)
Lemma catchBlock_exhausted attempt error w :
  carriesRetryMarker error -> (maxRetries <= attempt)%Z ->
  catchBlock attempt error w =
  (Throw (ErrorObj (rethrownMessage error)), emit (ConsoleError attempt error) w).
Proof.
  intros (msg & Hm & Hr) Hge. apply Z.ltb_ge in Hge.
  unfold catchBlock, bind, consoleError, throw. simpl.
  now rewrite Hm, Hge, andb_false_r.
Qed.

(** A failure without marker is thrown on at once. *)
Lemma catchBlock_fatal attempt error w :
  ~ carriesRetryMarker error ->
  exists m,
    catchBlock attempt error w =
    (Throw (ErrorObj m), emit (ConsoleError attempt error) w) /\
    (forall message, error = ErrorObj message -> m = message).
Proof.
  intros Hn. unfold catchBlock, bind, consoleError, throw. simpl.
  destruct (errorMessage error) as [msg|] eqn:Hm.
  - destruct (isRetryable msg) eqn:Hr.
    + exfalso. apply Hn. now apply (carriesRetryMarker_message _ _ Hm).
    + simpl. eexists; split; [reflexivity|]. now intros message ->.
  - eexists; split; [reflexivity|]. intros message ->. discriminate.
Qed.

Lemma catchBlock_continue_inv attempt error w w' :
  catchBlock attempt error w = (Normal Continue, w') ->
  carriesRetryMarker error /\ (attempt < maxRetries)%Z.
Proof.
  unfold catchBlock, bind, consoleError, sleep, ret, throw. simpl.
  destruct (errorMessage error) as [msg|] eqn:Hm; [|discriminate].
  destruct (isRetryable msg) eqn:Hr; simpl; [|discriminate].
  destruct (attempt <? maxRetries)%Z eqn:Hlt; [|discriminate].
  intros _. split.
  - now apply (carriesRetryMarker_message _ _ Hm).
  - now apply Z.ltb_lt.
Qed.

Lemma iteration_continue_inv ai request attempt w w' :
  tryCatch (tryBlock ai request) (catchBlock attempt) w = (Normal Continue, w') ->
  (attempt < maxRetries)%Z.
Proof.
  unfold tryCatch.
  pose proof (tryBlock_not_continue ai request w) as Hnc.
  destruct (tryBlock ai request w) as [[[v|]|e] w1]; simpl in Hnc.
  - discriminate.
  - congruence.
  - intros H. now apply catchBlock_continue_inv in H.
Qed.

(** *** The loop *)

Lemma forLoop_step ai request attempt w :
  (attempt <= maxRetries)%Z ->
  forLoop ai request attempt w =
  match tryCatch (tryBlock ai request) (catchBlock attempt) w with
  | (Normal (Return value), w') => (Normal (Some value), w')
  | (Normal Continue, w') => forLoop ai request (attempt + 1) w'
  | (Throw e, w') => (Throw e, w')
  end.
Proof.
  intros Hle. rewrite forLoop_equation_1.
  destruct (Z_le_gt_dec attempt maxRetries) as [l|g]; [|lia].
  simpl.
  destruct (tryCatch (tryBlock ai request) (catchBlock attempt) w)
    as [[[v|]|e] w1]; reflexivity.
Qed.

Lemma forLoop_exit ai request attempt w :
  (attempt > maxRetries)%Z ->
  forLoop ai request attempt w = (Normal None, w).
Proof.
  intros Hgt. rewrite forLoop_equation_1.
  destruct (Z_le_gt_dec attempt maxRetries) as [l|g]; [lia|reflexivity].
Qed.

(** The iteration that sees a rejection carrying a marker before the last
    attempt: call, console output, wait, next attempt. *)
Lemma forLoop_retry ai request attempt w e :
  (attempt < maxRetries)%Z ->
  ai (calls w) request = Rejected e -> carriesRetryMarker e ->
  forLoop ai request attempt w =
  forLoop ai request (attempt + 1)
    (emit (SetTimeout (initialDelay * 2 ^ (attempt - 1)))
       (emit (ConsoleError attempt e) (sent request w))).
Proof.
  intros Hlt Hai He. rewrite forLoop_step by lia.
  unfold tryCatch. rewrite (tryBlock_rejected _ _ _ _ Hai).
  now rewrite (catchBlock_retry _ _ _ He Hlt).
Qed.

(** Started at an attempt within the bound, the loop never falls through:
    an iteration goes on only before the last attempt. *)
Lemma forLoop_no_exit ai request (n : nat) :
  forall attempt w,
    attemptsLeft attempt = n -> (attempt <= maxRetries)%Z ->
    fst (forLoop ai request attempt w) <> Normal None.
Proof.
  induction n as [|n IH]; intros attempt w Hn Hle.
  - unfold attemptsLeft, maxRetries in *. lia.
  - rewrite forLoop_step by exact Hle.
    destruct (tryCatch (tryBlock ai request) (catchBlock attempt) w)
      as [[[v|]|e] w1] eqn:Hit; simpl; try discriminate.
    apply iteration_continue_inv in Hit.
    apply IH; unfold attemptsLeft, maxRetries in *; lia.
Qed.

(** Effects are only ever added to the log. *)
Lemma catchBlock_log attempt error w :
  exists rest, log (snd (catchBlock attempt error w)) = log w ++ rest.
Proof.
  unfold catchBlock, bind, consoleError, sleep, ret, throw. simpl.
  destruct (errorMessage error) as [msg|]; [|now eexists].
  destruct (isRetryable msg && (attempt <? maxRetries)%Z); simpl.
  - rewrite <- app_assoc. now eexists.
  - now eexists.
Qed.

Lemma forLoop_log ai request (n : nat) :
  forall attempt w,
    attemptsLeft attempt = n ->
    exists rest, log (snd (forLoop ai request attempt w)) = log w ++ rest.
Proof.
  induction n as [n IH] using lt_wf_ind; intros attempt w Hn.
  destruct (Z_le_gt_dec attempt maxRetries) as [Hle|Hgt].
  2:{ rewrite forLoop_exit by exact Hgt. exists []. simpl. now rewrite app_nil_r. }
  rewrite forLoop_step by exact Hle. unfold tryCatch.
  pose proof (tryBlock_world ai request w) as Hw.
  destruct (tryBlock ai request w) as [[[v|]|e] w1]; simpl in Hw; subst w1.
  - simpl. now eexists.
  - destruct (IH (attemptsLeft (attempt + 1))
                ltac:(unfold attemptsLeft, maxRetries in *; lia)
                (attempt + 1)%Z (sent request w) eq_refl) as [rest Hrest].
    rewrite Hrest. simpl. rewrite <- app_assoc. now eexists.
  - destruct (catchBlock_log attempt e (sent request w)) as [rest Hrest].
    destruct (catchBlock attempt e (sent request w)) as [[[v|]|e'] w2];
      simpl in Hrest.
    + simpl. rewrite Hrest. simpl. rewrite <- app_assoc. now eexists.
    + destruct (IH (attemptsLeft (attempt + 1))
                  ltac:(unfold attemptsLeft, maxRetries in *; lia)
                  (attempt + 1)%Z w2 eq_refl) as [rest' Hrest'].
      rewrite Hrest', Hrest. simpl. rewrite <- !app_assoc. now eexists.
    + simpl. rewrite Hrest. simpl. rewrite <- app_assoc. now eexists.
Qed.

(** Every call of [callGeminiImageApi] sends the request at least once,
    before anything else it does. *)
Lemma callGeminiImageApi_sends ai request w :
  exists rest,
    log (snd (callGeminiImageApi ai request w)) =
    log w ++ GenerateContent request :: rest.
Proof.
  unfold callGeminiImageApi.
  assert (H : exists rest, log (snd (forLoop ai request 1 w)) =
                           log w ++ GenerateContent request :: rest).
  { rewrite forLoop_step by (unfold maxRetries; lia). unfold tryCatch.
    pose proof (tryBlock_world ai request w) as Hw.
    destruct (tryBlock ai request w) as [[[v|]|e] w1]; simpl in Hw; subst w1.
    - simpl. now eexists.
    - destruct (forLoop_log ai request _ (1 + 1)%Z (sent request w) eq_refl)
        as [rest Hrest].
      rewrite Hrest. simpl. rewrite <- app_assoc. now eexists.
    - destruct (catchBlock_log 1 e (sent request w)) as [rest Hrest].
      destruct (catchBlock 1 e (sent request w)) as [[[v|]|e'] w2];
        simpl in Hrest.
      + simpl. rewrite Hrest. simpl. rewrite <- app_assoc. now eexists.
      + destruct (forLoop_log ai request _ (1 + 1)%Z w2 eq_refl)
          as [rest' Hrest'].
        rewrite Hrest', Hrest. simpl. rewrite <- !app_assoc. now eexists.
      + simpl. rewrite Hrest. simpl. rewrite <- app_assoc. now eexists. }
  destruct H as [rest H].
  destruct (forLoop ai request 1 w) as [[[v|]|e] w1]; simpl in *;
    exists rest; exact H.
Qed.


(** *** The properties of the policy *)

(** C1.  A failure of an attempt is retried exactly on the markers: the
    classification is true if and only if the message text contains "429",
    "500" or "INTERNAL"; a failure without marker ends the loop at once,
    whatever the attempt; a failure with a marker is retried, after the
    backoff wait, before the last attempt; and a response without image fails with a message that carries
    no marker, so it ends the loop too. *)
Theorem retryable_iff_marker :
  (forall error msg,
      errorMessage error = Some msg ->
      (isRetryable msg = true <->
       includes msg "429" = true \/ includes msg "500" = true \/
       includes msg "INTERNAL" = true)) /\
  (forall ai request attempt w error,
      (attempt <= maxRetries)%Z ->
      fst (tryBlock ai request w) = Throw error ->
      ~ carriesRetryMarker error ->
      exists m,
        forLoop ai request attempt w =
        (Throw (ErrorObj m), emit (ConsoleError attempt error) (sent request w))) /\
  (forall ai request attempt w error,
      (1 <= attempt < maxRetries)%Z ->
      fst (tryBlock ai request w) = Throw error ->
      carriesRetryMarker error ->
      forLoop ai request attempt w =
      forLoop ai request (attempt + 1)
        (emit (SetTimeout (initialDelay * 2 ^ (attempt - 1)))
           (emit (ConsoleError attempt error) (sent request w)))) /\
  (forall ai request attempt w r,
      (attempt <= maxRetries)%Z ->
      ai (calls w) request = Fulfilled r ->
      optInlineData (findImagePart r) = None ->
      ~ carriesRetryMarker (ErrorObj noImageMessage) /\
      forLoop ai request attempt w =
      (Throw (ErrorObj noImageMessage),
       emit (ConsoleError attempt (ErrorObj noImageMessage)) (sent request w))).
Proof.
  assert (Hempty : ~ carriesRetryMarker (ErrorObj noImageMessage)).
  { intros (msg & Hm & H). injection Hm as <-.
    now destruct H as [H|[H|H]]; vm_compute in H. }
  assert (Hfatal : forall ai request attempt w error,
      (attempt <= maxRetries)%Z ->
      fst (tryBlock ai request w) = Throw error ->
      ~ carriesRetryMarker error ->
      exists m,
        forLoop ai request attempt w =
        (Throw (ErrorObj m), emit (ConsoleError attempt error) (sent request w))).
  { intros ai request attempt w error Hle Hthrow Hn.
    rewrite forLoop_step by exact Hle. unfold tryCatch.
    pose proof (tryBlock_world ai request w) as Hw.
    destruct (tryBlock ai request w) as [[c|e] w1]; simpl in *;
      [discriminate|].
    injection Hthrow as ->. subst w1.
    destruct (catchBlock_fatal attempt error (sent request w) Hn) as (m & -> & _).
    now exists m. }
  split; [|split; [|split]].
  - intros error msg _. apply isRetryable_iff.
  - exact Hfatal.
  - intros ai request attempt w error [_ Hlt] Hthrow He.
    rewrite forLoop_step by lia. unfold tryCatch.
    pose proof (tryBlock_world ai request w) as Hw.
    destruct (tryBlock ai request w) as [[c|e] w1]; simpl in *;
      [discriminate|].
    injection Hthrow as ->. subst w1.
    now rewrite (catchBlock_retry _ _ _ He Hlt).
  - intros ai request attempt w r Hle Hai Hnone. split; [exact Hempty|].
    rewrite forLoop_step by exact Hle. unfold tryCatch.
    rewrite (tryBlock_fulfilled _ _ _ _ Hai), Hnone.
    destruct (catchBlock_fatal attempt (ErrorObj noImageMessage)
                (sent request w) Hempty) as (m & -> & Hm).
    now rewrite (Hm _ eq_refl).
Qed.

Lemma retryable_iff_marker_witness :
  exists m,
    forLoop (alwaysRejects (ErrorObj "401 unauthorized")) [textPart "Paris"] 1
      emptyWorld =
    (Throw (ErrorObj m),
     emit (ConsoleError 1 (ErrorObj "401 unauthorized"))
       (sent [textPart "Paris"] emptyWorld)).
Proof.
  apply (proj1 (proj2 retryable_iff_marker)).
  - unfold maxRetries. lia.
  - reflexivity.
  - intros (msg & Hm & H). injection Hm as <-.
    destruct H as [H|[H|H]]; vm_compute in H; discriminate.
Defined.

(** C2.  Two rejections that carry a marker, then a response with an image:
    the image of the third response is returned after exactly three calls,
    with a wait of 1500 ms after the first and of 3000 ms after the second
    failure, and no other wait. *)
Theorem retry_twice_then_image ai request w e1 e2 r blob :
  ai (calls w) request = Rejected e1 -> carriesRetryMarker e1 ->
  ai (S (calls w)) request = Rejected e2 -> carriesRetryMarker e2 ->
  ai (S (S (calls w))) request = Fulfilled r ->
  optInlineData (findImagePart r) = Some blob ->
  let trace :=
    [ GenerateContent request; ConsoleError 1 e1; SetTimeout 1500;
      GenerateContent request; ConsoleError 2 e2; SetTimeout 3000;
      GenerateContent request ] in
  callGeminiImageApi ai request w = (Normal (dataUrl blob), extended w 3 trace) /\
  invocations trace = 3 /\
  suspensions trace =
    [ (initialDelay * 2 ^ (1 - 1))%Z; (initialDelay * 2 ^ (2 - 1))%Z ].
Proof.
  intros H1 M1 H2 M2 H3 Hblob trace.
  split; [|split; reflexivity].
  unfold callGeminiImageApi.
  rewrite (forLoop_retry ai request 1 w e1) by (try assumption; reflexivity).
  rewrite (forLoop_retry ai request (1 + 1) _ e2)
    by (try assumption; reflexivity).
  rewrite forLoop_step by (unfold maxRetries; lia).
  unfold tryCatch. erewrite tryBlock_fulfilled by exact H3.
  rewrite Hblob. unfold extended, emit, sent, trace. simpl.
  now rewrite <- !app_assoc.
Qed.

Lemma retry_twice_then_image_witness :
  callGeminiImageApi
    (failsUntil 2 (ErrorObj "429 Too Many Requests") pngResponse)
    [textPart "Paris"] emptyWorld =
  (Normal "data:image/png;base64,iVBORw0KGgo="%string,
   extended emptyWorld 3
     [ GenerateContent [textPart "Paris"];
       ConsoleError 1 (ErrorObj "429 Too Many Requests"); SetTimeout 1500;
       GenerateContent [textPart "Paris"];
       ConsoleError 2 (ErrorObj "429 Too Many Requests"); SetTimeout 3000;
       GenerateContent [textPart "Paris"] ]).
Proof.
  refine (proj1 (retry_twice_then_image
                   (failsUntil 2 (ErrorObj "429 Too Many Requests") pngResponse)
                   [textPart "Paris"] emptyWorld
                   (ErrorObj "429 Too Many Requests")
                   (ErrorObj "429 Too Many Requests")
                   pngResponse
                   {| data := Some "iVBORw0KGgo="%string;
                      mimeType := Some "image/png"%string |}
                   _ _ _ _ _ _)); try reflexivity;
    (exists "429 Too Many Requests"%string; split;
     [reflexivity | left; reflexivity]).
Defined.

(** C3, as the code has it.  Three rejections that carry a marker: exactly
    three calls, the two waits, and then an [Error] is thrown whose message
    is the message of the third failure when that failure is an [Error], and
    the fixed text "Failed to generate image." when the value thrown is not
    an [Error]. *)
Theorem three_failures_then_throw ai request w e1 e2 e3 :
  ai (calls w) request = Rejected e1 -> carriesRetryMarker e1 ->
  ai (S (calls w)) request = Rejected e2 -> carriesRetryMarker e2 ->
  ai (S (S (calls w))) request = Rejected e3 -> carriesRetryMarker e3 ->
  let trace :=
    [ GenerateContent request; ConsoleError 1 e1; SetTimeout 1500;
      GenerateContent request; ConsoleError 2 e2; SetTimeout 3000;
      GenerateContent request; ConsoleError 3 e3 ] in
  exists m,
    callGeminiImageApi ai request w = (Throw (ErrorObj m), extended w 3 trace) /\
    invocations trace = 3 /\
    (forall message, e3 = ErrorObj message -> m = message) /\
    (forall json, e3 = NonError json -> m = "Failed to generate image."%string).
Proof.
  intros H1 M1 H2 M2 H3 M3 trace.
  exists (rethrownMessage e3).
  split; [|split; [reflexivity|split; now intros ? ->]].
  unfold callGeminiImageApi.
  rewrite (forLoop_retry ai request 1 w e1) by (try assumption; reflexivity).
  rewrite (forLoop_retry ai request (1 + 1) _ e2)
    by (try assumption; reflexivity).
  rewrite forLoop_step by (unfold maxRetries; lia).
  unfold tryCatch. erewrite tryBlock_rejected by exact H3.
  rewrite catchBlock_exhausted by (try assumption; unfold maxRetries; lia).
  unfold extended, emit, sent, trace. simpl.
  now rewrite <- !app_assoc.
Qed.

Lemma three_failures_then_throw_witness :
  exists m,
    fst (callGeminiImageApi (alwaysRejects (ErrorObj "500 Internal Server Error"))
           [textPart "Paris"] emptyWorld) = Throw (ErrorObj m) /\
    m = "500 Internal Server Error"%string.
Proof.
  destruct (three_failures_then_throw
              (alwaysRejects (ErrorObj "500 Internal Server Error"))
              [textPart "Paris"] emptyWorld
              (ErrorObj "500 Internal Server Error")
              (ErrorObj "500 Internal Server Error")
              (ErrorObj "500 Internal Server Error")) as (m & Hcall & _ & Hm & _);
    try reflexivity;
    try (exists "500 Internal Server Error"%string; split;
         [reflexivity | right; left; reflexivity]).
  exists m. split; [now rewrite Hcall | now apply Hm].
Defined.

(** C3 as stated fails: when the value thrown is not an [Error] (here the
    number 500), its text "500" carries a marker, three attempts are made,
    and the error thrown at the end has the fixed message, not that text. *)
Lemma last_message_not_carried :
  carriesRetryMarker (NonError (Some "500"%string)) /\
  errorMessage (NonError (Some "500"%string)) = Some "500"%string /\
  callGeminiImageApi (alwaysRejects (NonError (Some "500"%string)))
    [textPart "Paris"] emptyWorld =
  (Throw (ErrorObj "Failed to generate image."),
   extended emptyWorld 3
     [ GenerateContent [textPart "Paris"];
       ConsoleError 1 (NonError (Some "500"%string)); SetTimeout 1500;
       GenerateContent [textPart "Paris"];
       ConsoleError 2 (NonError (Some "500"%string)); SetTimeout 3000;
       GenerateContent [textPart "Paris"];
       ConsoleError 3 (NonError (Some "500"%string)) ]) /\
  fst (callGeminiImageApi (alwaysRejects (NonError (Some "500"%string)))
         [textPart "Paris"] emptyWorld) <> Throw (ErrorObj "500").
Proof.
  split; [|split; [reflexivity|split; [reflexivity|]]].
  - exists "500"%string. split; [reflexivity | right; left; reflexivity].
  - vm_compute. discriminate.
Qed.

(** C4.  A first attempt that fails without marker: one call, no wait, and
    an [Error] is thrown at once (with the failure's own message when the
    failure is an [Error]). *)
Theorem fatal_first_attempt ai request w error :
  fst (tryBlock ai request w) = Throw error ->
  ~ carriesRetryMarker error ->
  let trace := [ GenerateContent request; ConsoleError 1 error ] in
  exists m,
    callGeminiImageApi ai request w = (Throw (ErrorObj m), extended w 1 trace) /\
    invocations trace = 1 /\
    suspensions trace = [] /\
    (forall message, error = ErrorObj message -> m = message).
Proof.
  intros Hthrow Hn trace.
  unfold callGeminiImageApi.
  rewrite forLoop_step by (unfold maxRetries; lia). unfold tryCatch.
  pose proof (tryBlock_world ai request w) as Hw.
  destruct (tryBlock ai request w) as [[c|e] w1]; simpl in *; [discriminate|].
  injection Hthrow as ->. subst w1.
  destruct (catchBlock_fatal 1 error (sent request w) Hn) as (m & -> & Hm).
  exists m. split; [|split; [reflexivity|split; [reflexivity|exact Hm]]].
  unfold extended, emit, sent, trace. simpl.
  now rewrite <- !app_assoc.
Qed.

Lemma fatal_first_attempt_witness :
  exists m,
    callGeminiImageApi (alwaysRejects (ErrorObj "401 unauthorized"))
      [textPart "Paris"] emptyWorld =
    (Throw (ErrorObj m),
     extended emptyWorld 1
       [ GenerateContent [textPart "Paris"];
         ConsoleError 1 (ErrorObj "401 unauthorized") ]).
Proof.
  destruct (fatal_first_attempt (alwaysRejects (ErrorObj "401 unauthorized"))
              [textPart "Paris"] emptyWorld (ErrorObj "401 unauthorized"))
    as (m & Hcall & _).
  - reflexivity.
  - intros (msg & Hm & H). injection Hm as <-.
    destruct H as [H|[H|H]]; vm_compute in H; discriminate.
  - now exists m.
Defined.

(** C6.  Whatever the service answers, the loop of [callGeminiImageApi]
    never runs to its end: it returns or throws from inside, so the
    [throw] after the loop is never reached. *)
Theorem retries_exceeded_unreachable ai request w :
  fst (forLoop ai request 1 w) <> Normal None /\
  ((exists value, fst (forLoop ai request 1 w) = Normal (Some value)) \/
   (exists e, fst (forLoop ai request 1 w) = Throw e)).
Proof.
  pose proof (forLoop_no_exit ai request _ 1 w eq_refl
                ltac:(unfold maxRetries; lia)) as Hne.
  split; [exact Hne|].
  destruct (forLoop ai request 1 w) as [[[v|]|e] w1]; simpl in *.
  - left. now exists v.
  - congruence.
  - right. now exists e.
Qed.

End RetryPolicy.

(* ===================================================================== *)
(** ** Extraction of the image from a response *)
(* ===================================================================== *)

Module ModelInvoker.

Import JS GeminiService Spec.
Local Open Scope list_scope.

Lemma find_first {A} (f : A -> bool) (before : list A) (x : A) (after : list A) :
  (forall y, In y before -> f y = false) -> f x = true ->
  find f (before ++ x :: after) = Some x.
Proof.
  induction before as [|y before IH]; simpl; intros Hb Hx.
  - now rewrite Hx.
  - rewrite (Hb y (or_introl eq_refl)). apply IH; auto.
Qed.

Lemma find_split {A} (f : A -> bool) (l : list A) (x : A) :
  find f l = Some x ->
  exists before after,
    l = before ++ x :: after /\ (forall y, In y before -> f y = false) /\
    f x = true.
Proof.
  induction l as [|y l IH]; simpl; [discriminate|].
  destruct (f y) eqn:Hy.
  - intros [= ->]. exists [], l. repeat split; auto. intros ? [].
  - intros H. destruct (IH H) as (before & after & -> & Hb & Hx).
    exists (y :: before), after. repeat split; auto.
    intros z [<-|Hz]; auto.
Qed.

Lemma find_none_existsb {A} (f : A -> bool) (l : list A) :
  find f l = None <-> existsb f l = false.
Proof.
  induction l as [|y l IH]; simpl; [tauto|].
  destruct (f y); simpl; [split; discriminate|exact IH].
Qed.

Lemma hasInlineData_false (p : Part) :
  hasInlineData p = false <-> inlineData p = None.
Proof. unfold hasInlineData. destruct (inlineData p); split; congruence. Qed.

(** What [findImagePart] finds is the first image of the first candidate. *)
Lemma findImagePart_first r blob :
  firstImageOfFirstCandidate r blob ->
  optInlineData (findImagePart r) = Some blob.
Proof.
  intros (c & cs & ct & before & part & after & Hc & Hct & Hps & Hb & Hp).
  unfold findImagePart. rewrite Hc. simpl. rewrite Hct, Hps.
  change (fun part0 : Part => match inlineData part0 with
                              | Some _ => true
                              | None => false
                              end) with hasInlineData.
  rewrite find_first; [exact Hp| |unfold hasInlineData; now rewrite Hp].
  intros y Hy. apply hasInlineData_false. auto.
Qed.

Lemma findImagePart_found r blob :
  optInlineData (findImagePart r) = Some blob ->
  firstImageOfFirstCandidate r blob.
Proof.
  unfold findImagePart, firstImageOfFirstCandidate, index.
  destruct (candidates r) as [[|c cs]|]; simpl; try discriminate.
  destruct (content c) as [ct|] eqn:Hct; simpl; try discriminate.
  destruct (parts ct) as [ps|] eqn:Hps; simpl; try discriminate.
  destruct (find _ ps) as [part|] eqn:Hfind; simpl; try discriminate.
  intros Hblob.
  apply find_split in Hfind as (before & after & -> & Hb & _).
  exists c, cs, ct, before, part, after. repeat split; auto.
  intros p Hp. specialize (Hb p Hp). now destruct (inlineData p).
Qed.

Lemma findImagePart_none r :
  optInlineData (findImagePart r) = None <-> firstCandidateHasImage r = false.
Proof.
  unfold findImagePart, firstCandidateHasImage, candidateHasImage, index.
  destruct (candidates r) as [[|c cs]|]; simpl; try tauto.
  destruct (content c) as [ct|]; simpl; try tauto.
  destruct (parts ct) as [ps|]; simpl; try tauto.
  change (fun part0 : Part => match inlineData part0 with
                              | Some _ => true
                              | None => false
                              end) with hasInlineData.
  rewrite <- find_none_existsb.
  destruct (find hasInlineData ps) as [part|] eqn:Hfind; simpl; [|tauto].
  apply find_some in Hfind as [_ Hp]. unfold hasInlineData in Hp.
  destruct (inlineData part); [|discriminate]. split; discriminate.
Qed.

(** C5, as the code has it.  When the service answers, the attempt returns
    the first part with inline image data of the FIRST candidate as
    [data:<mediaType>;base64,<payload>], and it fails with the no-image error
    if and only if the first candidate holds no inline image data; no
    candidate at all is such a case.  Later candidates are not looked at. *)
Theorem first_candidate_decides ai request w r :
  ai (calls w) request = Fulfilled r ->
  (forall blob,
      firstImageOfFirstCandidate r blob ->
      tryBlock ai request w =
      (Normal (Return ("data:" ++ interpolate (mimeType blob) ++ ";base64,"
                         ++ interpolate (data blob))%string),
       sent request w)) /\
  (firstCandidateHasImage r = true ->
   exists blob, firstImageOfFirstCandidate r blob) /\
  (fst (tryBlock ai request w) = Throw (ErrorObj noImageMessage) <->
   firstCandidateHasImage r = false) /\
  (candidates r = None \/ candidates r = Some [] ->
   firstCandidateHasImage r = false).
Proof.
  intros Hai. rewrite (RetryPolicy.tryBlock_fulfilled _ _ _ _ Hai).
  split; [|split; [|split]].
  - intros blob Hblob. now rewrite (findImagePart_first _ _ Hblob).
  - intros Hhas.
    destruct (optInlineData (findImagePart r)) as [blob|] eqn:Hopt.
    + exists blob. now apply findImagePart_found.
    + apply findImagePart_none in Hopt. congruence.
  - rewrite <- findImagePart_none.
    destruct (optInlineData (findImagePart r)); simpl; split; congruence.
  - unfold firstCandidateHasImage. now intros [->| ->].
Qed.

Lemma first_candidate_decides_witness :
  tryBlock (alwaysAnswers pngResponse) [textPart "Paris"] emptyWorld =
  (Normal (Return "data:image/png;base64,iVBORw0KGgo="),
   sent [textPart "Paris"] emptyWorld).
Proof.
  refine (proj1 (first_candidate_decides (alwaysAnswers pngResponse)
                   [textPart "Paris"] emptyWorld pngResponse eq_refl)
            {| data := Some "iVBORw0KGgo="%string;
               mimeType := Some "image/png"%string |} _).
  eexists _, _, _, [textPart "Here is your painting."%string], _, [].
  repeat split; try reflexivity.
  intros p [<-|[]]. reflexivity.
Defined.

(** C5 as stated fails: a response can hold an image in a later candidate
    and the attempt still fails with the no-image error. *)
Lemma image_in_later_candidate_ignored :
  someCandidateHasImage imageInSecondCandidate = true /\
  tryBlock (alwaysAnswers imageInSecondCandidate) [textPart "Paris"] emptyWorld =
  (Throw (ErrorObj noImageMessage), sent [textPart "Paris"] emptyWorld).
Proof. split; reflexivity. Qed.

End ModelInvoker.

(* ===================================================================== *)
(** ** Data URLs: built by callGeminiImageApi, taken apart by
       editWatercolourPainting *)
(* ===================================================================== *)

Module DataUrl.

Import JS GeminiService Spec JSFacts.

(** The media type comes back when it holds neither [;] nor [:]. *)
Lemma mimeType_back (m rest : string) :
  hasChar ";" m = false -> hasChar ":" m = false ->
  exists segs,
    split ("data:" ++ m ++ String ";" rest) ";" = ("data:" ++ m) :: segs /\
    index (split ("data:" ++ m) ":") 1 = Some m.
Proof.
  intros Hsemi Hcolon. eexists. split.
  - rewrite <- append_assoc. apply split_first.
    rewrite hasChar_append, Hsemi. reflexivity.
  - change ("data:" ++ m) with ("data" ++ String ":" m).
    rewrite split_first by reflexivity.
    now rewrite (split_absent _ _ Hcolon).
Qed.

(** The payload comes back when neither it nor the media type holds [,]. *)
Lemma payload_back (m d : string) :
  hasChar "," m = false -> hasChar "," d = false ->
  index (split ("data:" ++ m ++ ";base64," ++ d) ",") 1 = Some d.
Proof.
  intros Hm Hd.
  change (";base64," ++ d) with (";base64" ++ String "," d).
  rewrite <- (append_assoc m), <- (append_assoc "data:").
  rewrite split_first.
  - now rewrite (split_absent _ _ Hd).
  - rewrite !hasChar_append, Hm. reflexivity.
Qed.

(** C7, as the code has it.  A media type without [;], [:] and [,] and a
    payload without [,], written as [data:<mediaType>;base64,<payload>] and
    taken apart again by the edit operation, come back unchanged. *)
Theorem dataUrl_roundtrip (m d : string) :
  hasChar ";" m = false -> hasChar ":" m = false -> hasChar "," m = false ->
  hasChar "," d = false ->
  parseDataUrl (dataUrl {| data := Some d; mimeType := Some m |}) =
  Some (Some d, Some m).
Proof.
  intros Hsemi Hcolon Hcm Hcd. unfold parseDataUrl, dataUrl. cbn [interpolate mimeType data].
  rewrite (payload_back m d Hcm Hcd).
  destruct (mimeType_back m ("base64," ++ d) Hsemi Hcolon) as (segs & Hs & Hm).
  change (";base64," ++ d) with (String ";" ("base64," ++ d)).
  rewrite Hs.
  change (index (("data:" ++ m) :: segs) 0) with (Some ("data:" ++ m)).
  cbv beta iota. now rewrite Hm.
Qed.

Lemma dataUrl_roundtrip_witness :
  parseDataUrl
    (dataUrl {| data := Some "iVBORw0KGgo="; mimeType := Some "image/png" |}) =
  Some (Some "iVBORw0KGgo=", Some "image/png").
Proof.
  apply (dataUrl_roundtrip "image/png" "iVBORw0KGgo="); reflexivity.
Defined.

(** C7 as stated fails: a media type with a parameter loses the parameter. *)
Lemma mimeType_parameter_lost :
  parseDataUrl
    (dataUrl {| data := Some "iVBORw0KGgo=";
                mimeType := Some "image/svg+xml;charset=utf-8" |}) =
  Some (Some "iVBORw0KGgo=", Some "image/svg+xml") /\
  parseDataUrl
    (dataUrl {| data := Some "iVBORw0KGgo=";
                mimeType := Some "image/svg+xml;charset=utf-8" |}) <>
  Some (Some "iVBORw0KGgo=", Some "image/svg+xml;charset=utf-8").
Proof. split; [reflexivity|discriminate]. Qed.

(** Element 0 of a split is always there, so taking the URL apart cannot
    throw; and the request is sent with what came out. *)
Lemma parseDataUrl_total (url : string) :
  exists mimeType,
    parseDataUrl url = Some (index (split url ",") 1, mimeType).
Proof.
  unfold parseDataUrl.
  destruct (split_cons url ";") as (seg & segs & ->).
  cbn [index nth_error]. now eexists.
Qed.

Lemma editWatercolourPainting_sends ai url editPrompt originalPlace w :
  exists mimeType rest,
    parseDataUrl url = Some (index (split url ",") 1, mimeType) /\
    log (snd (editWatercolourPainting ai url editPrompt originalPlace w)) =
    (log w ++
     GenerateContent [ inlineDataPart (index (split url ",") 1) mimeType;
                       textPart (editPromptText editPrompt originalPlace) ]
     :: rest)%list.
Proof.
  destruct (parseDataUrl_total url) as [mimeType Hparse].
  unfold editWatercolourPainting. rewrite Hparse.
  destruct (RetryPolicy.callGeminiImageApi_sends ai
              [ inlineDataPart (index (split url ",") 1) mimeType;
                textPart (editPromptText editPrompt originalPlace) ] w)
    as [rest Hrest].
  now exists mimeType, rest.
Qed.

(** C10.  Taking the data URL apart never throws, whatever the string, and
    the request is sent with whatever came out; for a string without [,]
    the payload sent is [undefined]. *)
Theorem edit_sends_unvalidated (url : string) :
  (exists base64Data mimeType, parseDataUrl url = Some (base64Data, mimeType)) /\
  (forall ai editPrompt originalPlace w,
      exists base64Data mimeType rest,
        parseDataUrl url = Some (base64Data, mimeType) /\
        log (snd (editWatercolourPainting ai url editPrompt originalPlace w)) =
        (log w ++
         GenerateContent [ inlineDataPart base64Data mimeType;
                           textPart (editPromptText editPrompt originalPlace) ]
         :: rest)%list) /\
  (hasChar "," url = false ->
   forall ai editPrompt originalPlace w,
     exists mimeType rest,
       parseDataUrl url = Some (None, mimeType) /\
       log (snd (editWatercolourPainting ai url editPrompt originalPlace w)) =
       (log w ++
        GenerateContent [ inlineDataPart None mimeType;
                          textPart (editPromptText editPrompt originalPlace) ]
        :: rest)%list).
Proof.
  split; [|split].
  - destruct (parseDataUrl_total url) as [mimeType Hparse].
    exists (index (split url ",") 1), mimeType. exact Hparse.
  - intros ai editPrompt originalPlace w.
    destruct (editWatercolourPainting_sends ai url editPrompt originalPlace w)
      as (mimeType & rest & Hparse & Hlog).
    now exists (index (split url ",") 1), mimeType, rest.
  - intros Hno ai editPrompt originalPlace w.
    destruct (editWatercolourPainting_sends ai url editPrompt originalPlace w)
      as (mimeType & rest & Hparse & Hlog).
    rewrite (split_absent _ _ Hno) in Hparse, Hlog.
    now exists mimeType, rest.
Qed.

Lemma edit_sends_unvalidated_witness :
  exists mimeType rest,
    parseDataUrl "not a data url" = Some (None, mimeType) /\
    log (snd (editWatercolourPainting (alwaysAnswers pngResponse)
                "not a data url" "add a boat" "Paris" emptyWorld)) =
    (log emptyWorld ++
     GenerateContent [ inlineDataPart None mimeType;
                       textPart (editPromptText "add a boat" "Paris") ]
     :: rest)%list.
Proof.
  apply (proj2 (proj2 (edit_sends_unvalidated "not a data url"))).
  reflexivity.
Defined.

End DataUrl.

(* ===================================================================== *)
(** ** The prompts *)
(* ===================================================================== *)

Module PromptBuilder.

Import JS GeminiService Spec JSFacts.

Lemma occurrences_cons (c : ascii) (s p : string) :
  occurrences (String c s) p =
  (if startsWith (String c s) p then 1 else 0) + occurrences s p.
Proof. reflexivity. Qed.

(** An occurrence that begins in [s] either lies within [s] or has [s] as a
    prefix. *)
Lemma startsWith_append_left (s y p : string) :
  startsWith (s ++ y) p = true ->
  startsWith s p = true \/ startsWith p s = true.
Proof.
  revert p; induction s as [|c s IH]; intros p H.
  - right. now destruct p.
  - destruct p as [|a p]; [now left|].
    simpl in H. apply andb_true_iff in H as [Hac Hs].
    apply Ascii.eqb_eq in Hac; subst c.
    destruct (IH _ Hs) as [Hl|Hr]; [left|right]; simpl;
      now rewrite Ascii.eqb_refl.
Qed.

(** An occurrence that begins in [s] either lies within [s] or ends in [b]
    with a non-empty suffix of the pattern. *)
Lemma startsWith_append_right (s b p : string) :
  startsWith (s ++ b) p = true ->
  startsWith s p = true \/
  exists q, In q (tails p) /\ startsWith b q = true.
Proof.
  revert p; induction s as [|c s IH]; intros p H.
  - destruct p as [|a p]; [now left|].
    right. exists (String a p). split; [now left|exact H].
  - destruct p as [|a p]; [now left|].
    simpl in H. apply andb_true_iff in H as [Hac Hs].
    destruct (IH _ Hs) as [Hl|(q & Hq & Hb)].
    + left. simpl. now rewrite Hac.
    + right. exists q. split; [now right|exact Hb].
Qed.

Lemma startsWith_cons_append_right (c : ascii) (s b p : string) :
  startsWith (String c s ++ b) p = true ->
  startsWith (String c s) p = true \/
  exists q, In q (properTails p) /\ startsWith b q = true.
Proof.
  destruct p as [|a p]; [now left|]. intros H.
  simpl in H. apply andb_true_iff in H as [Hac Hs].
  destruct (startsWith_append_right _ _ _ Hs) as [Hl|(q & Hq & Hb)].
  - left. simpl. now rewrite Hac.
  - right. now exists q.
Qed.

Lemma occurrences_append_left (a y p : string) :
  clearOf a p = true -> occurrences (a ++ y) p = occurrences y p.
Proof.
  unfold clearOf. induction a as [|c a IH]; [reflexivity|].
  intros H. cbn [tails forallb] in H.
  apply andb_true_iff in H as [Hc Ha].
  apply andb_true_iff in Hc as [Hin Hpre].
  change (String c a ++ y) with (String c (a ++ y)).
  rewrite occurrences_cons, (IH Ha).
  destruct (startsWith (String c (a ++ y)) p) eqn:Hs; [|reflexivity].
  apply (startsWith_append_left (String c a)) in Hs as [Hs|Hs];
    rewrite Hs in *; discriminate.
Qed.

Lemma occurrences_append_right (x b p : string) :
  occurrences x p = 0 -> clearBefore b p = true ->
  occurrences (x ++ b) p = occurrences b p.
Proof.
  unfold clearBefore. intros Hx Hb.
  induction x as [|c x IH]; [reflexivity|].
  rewrite occurrences_cons in Hx.
  destruct (startsWith (String c x) p) eqn:Hhere; [discriminate|].
  change (String c x ++ b) with (String c (x ++ b)).
  rewrite occurrences_cons, (IH Hx).
  destruct (startsWith (String c (x ++ b)) p) eqn:Hs; [|reflexivity].
  apply (startsWith_cons_append_right c x b p) in Hs as [Hs|(q & Hq & Hs)].
  - congruence.
  - rewrite forallb_forall in Hb. specialize (Hb q Hq).
    rewrite Hs in Hb. discriminate.
Qed.

(** Each request stands once in the fixed text and cannot overlap the
    place description. *)
Lemma requests_fixed (request : string) :
  In request stylisticRequests ->
  clearOf generatePromptPrefix request = true /\
  clearBefore generatePromptSuffix request = true /\
  occurrences generatePromptSuffix request = 1.
Proof.
  intros [<-|[<-|[<-|[<-|[]]]]]; repeat split; vm_compute; reflexivity.
Qed.

(** C8, as the code has it.  The generate prompt contains the place
    description verbatim, and each stylistic request exactly once provided
    the place description does not itself contain that request; the edit
    prompt contains the edit instruction and the place description
    verbatim, whatever the image. *)
Theorem prompts_embed_inputs :
  (forall placeName, includes (generatePrompt placeName) placeName = true) /\
  (forall placeName request,
      In request stylisticRequests ->
      occurrences placeName request = 0 ->
      occurrences (generatePrompt placeName) request = 1) /\
  (forall editPrompt originalPlace,
      includes (editPromptText editPrompt originalPlace) editPrompt = true /\
      includes (editPromptText editPrompt originalPlace) originalPlace = true).
Proof.
  split; [|split].
  - intros placeName. apply includes_infix.
  - intros placeName request Hin Hplace.
    destruct (requests_fixed request Hin) as (Hleft & Hright & Honce).
    unfold generatePrompt.
    rewrite (occurrences_append_left _ _ _ Hleft).
    now rewrite (occurrences_append_right _ _ _ Hplace Hright).
  - intros editPrompt originalPlace. unfold editPromptText. split.
    + do 6 apply includes_skip. apply includes_here, startsWith_append.
    + apply includes_infix.
Qed.

Lemma prompts_embed_inputs_witness :
  occurrences (generatePrompt "The Eiffel Tower at sunset")
    "Focus on capturing the iconic essence and atmosphere of the location" = 1.
Proof.
  apply (proj1 (proj2 prompts_embed_inputs)).
  - right; left; reflexivity.
  - reflexivity.
Defined.

(** C8 as stated fails: a place description that repeats a request makes
    the prompt hold that request twice. *)
Lemma request_repeated_by_place :
  placeWithRequest <> "" /\
  In "Focus on capturing the iconic essence and atmosphere of the location"
     stylisticRequests /\
  occurrences (generatePrompt placeWithRequest)
    "Focus on capturing the iconic essence and atmosphere of the location" = 2.
Proof.
  split; [discriminate|]. split; [right; left; reflexivity|].
  vm_compute. reflexivity.
Qed.

End PromptBuilder.

(* ===================================================================== *)
(** ** The component: which place description an edit carries *)
(* ===================================================================== *)

Module Refinement.

Import JS GeminiService Spec App Session JSFacts.

(** Whenever [handleEdit] calls the service, the place description in the
    prompt is the content of the place field at that moment. *)
Lemma handleEdit_sends_place_field ai st w :
  truthy (trim (editPrompt st)) = true ->
  truthy (watercolourPainting st) = true ->
  exists base64Data mimeType rest,
    log (snd (handleEdit ai st w)) =
    (log w ++
     GenerateContent [ inlineDataPart base64Data mimeType;
                       textPart (editPromptText (editPrompt st) (place st)) ]
     :: rest)%list.
Proof.
  intros He Hw. unfold handleEdit. rewrite He, Hw. cbn [negb orb].
  destruct (DataUrl.editWatercolourPainting_sends ai (watercolourPainting st)
              (editPrompt st) (place st) w)
    as (mimeType & rest & _ & Hlog).
  set (base64Data := index (split (watercolourPainting st) ",") 1) in *.
  exists base64Data, mimeType, rest.
  now destruct (editWatercolourPainting ai (watercolourPainting st)
                  (editPrompt st) (place st) w) as [[v|e] w'].
Qed.

(** C9 fails on the code.  The picture painted for "Paris" is sent for
    refinement with a prompt that names "Rome", the text that stands in the
    place field when the refinement is submitted, and nowhere "Paris". *)
Lemma edit_carries_current_place_field :
  log (snd (run (alwaysAnswers pngResponse) placeChangedBeforeEdit
              initialState emptyWorld)) =
  [ GenerateContent [ textPart (generatePrompt "Paris") ];
    GenerateContent [ inlineDataPart (Some "iVBORw0KGgo=") (Some "image/png");
                      textPart (editPromptText "add a boat" "Rome") ] ] /\
  includes (editPromptText "add a boat" "Rome") "Paris" = false /\
  log (snd (run (alwaysAnswers pngResponse) paddedPlace
              initialState emptyWorld)) =
  [ GenerateContent [ textPart (generatePrompt "Paris") ];
    GenerateContent [ inlineDataPart (Some "iVBORw0KGgo=") (Some "image/png");
                      textPart (editPromptText "add a boat" "  Paris ") ] ].
Proof. repeat split; vm_compute; reflexivity. Qed.

End Refinement.

(* ===================================================================== *)
(** ** Every run of callGeminiImageApi *)
(* ===================================================================== *)

Module RetryRuns.

Import JS GeminiService Spec Runs.
Local Open Scope list_scope.

Lemma extended_sent request w :
  sent request w = extended w 1 [GenerateContent request].
Proof. reflexivity. Qed.

Lemma extended_emit w n trace ev :
  emit ev (extended w n trace) = extended w n (trace ++ [ev]).
Proof. unfold emit, extended. simpl. now rewrite app_assoc. Qed.

Lemma extended_extended w n trace m trace' :
  extended (extended w n trace) m trace' = extended w (n + m) (trace ++ trace').
Proof.
  unfold extended. simpl. f_equal; [lia | now rewrite app_assoc].
Qed.

(** What the handler does with a failure, case by case. *)
Lemma catchBlock_cases attempt e w :
  (carriesRetryMarker e /\ (attempt < maxRetries)%Z /\
   catchBlock attempt e w =
   (Normal Continue,
    emit (SetTimeout (initialDelay * 2 ^ (attempt - 1)))
      (emit (ConsoleError attempt e) w))) \/
  ((~ carriesRetryMarker e \/ (maxRetries <= attempt)%Z) /\
   exists m, thrownOn e m /\
             catchBlock attempt e w =
             (Throw (ErrorObj m), emit (ConsoleError attempt e) w)).
Proof.
  destruct (errorMessage e) as [msg|] eqn:Hmsg.
  - destruct (isRetryable msg) eqn:Hr.
    + assert (Hm : carriesRetryMarker e)
        by now apply (RetryPolicy.carriesRetryMarker_message _ _ Hmsg).
      destruct (Z_lt_ge_dec attempt maxRetries) as [Hlt|Hge].
      * left. split; [exact Hm|]. split; [exact Hlt|].
        now apply RetryPolicy.catchBlock_retry.
      * right. split; [right; lia|]. exists (rethrownMessage e). split.
        -- left. now exists msg.
        -- apply RetryPolicy.catchBlock_exhausted; [exact Hm | lia].
    + right. split.
      * left. intros Hm.
        apply (RetryPolicy.carriesRetryMarker_message _ _ Hmsg) in Hm.
        congruence.
      * exists (rethrownMessage e). split; [left; now exists msg|].
        unfold catchBlock, bind, consoleError, throw. simpl.
        now rewrite Hmsg, Hr.
  - right. split.
    + left. now apply RetryPolicy.carriesRetryMarker_none.
    + exists (undefinedMethodMessage "includes"). split; [now right|].
      unfold catchBlock, bind, consoleError, throw. simpl.
      now rewrite Hmsg.
Qed.

(** The loop, from an attempt within the bound, makes one of the runs. *)
Lemma forLoop_attempts ai request (n : nat) :
  forall attempt w,
    attemptsLeft attempt = n -> (attempt <= maxRetries)%Z ->
    exists trace out,
      attempts ai request attempt (calls w) trace out /\
      forLoop ai request attempt w =
      (out, extended w (invocations trace) trace).
Proof.
  induction n as [|n IH]; intros attempt w Hn Hle.
  - unfold attemptsLeft, maxRetries in *. lia.
  - rewrite RetryPolicy.forLoop_step by exact Hle. unfold tryCatch.
    destruct (ai (calls w) request) as [r|e] eqn:Hai.
    + rewrite (RetryPolicy.tryBlock_fulfilled _ _ _ _ Hai).
      destruct (optInlineData (findImagePart r)) as [blob|] eqn:Himg.
      * exists [GenerateContent request], (Normal (Some (dataUrl blob))).
        split; [now apply (attempts_image _ _ _ _ r)|reflexivity].
      * destruct (catchBlock_cases attempt (ErrorObj noImageMessage)
                    (sent request w))
          as [(Hm & _)|(Hwhy & m & Hm & ->)].
        -- exfalso. destruct Hm as (msg & Hmsg & H). injection Hmsg as <-.
           now destruct H as [H|[H|H]]; vm_compute in H.
        -- exists [GenerateContent request;
                   ConsoleError attempt (ErrorObj noImageMessage)],
                  (Throw (ErrorObj m)).
           split.
           ++ apply attempts_throw; auto. right. now exists r.
           ++ now rewrite extended_sent, extended_emit.
    + rewrite (RetryPolicy.tryBlock_rejected _ _ _ _ Hai).
      destruct (catchBlock_cases attempt e (sent request w))
        as [(Hm & Hlt & ->)|(Hwhy & m & Hm & ->)].
      * destruct (IH (attempt + 1)%Z
                    (emit (SetTimeout (initialDelay * 2 ^ (attempt - 1)))
                       (emit (ConsoleError attempt e) (sent request w))))
          as (trace & out & Hrun & ->).
        -- unfold attemptsLeft, maxRetries in *. lia.
        -- lia.
        -- exists (GenerateContent request :: ConsoleError attempt e
                   :: SetTimeout (initialDelay * 2 ^ (attempt - 1)) :: trace),
                  out.
           split; [now apply attempts_retry|].
           rewrite extended_sent, !extended_emit, extended_extended.
           reflexivity.
      * exists [GenerateContent request; ConsoleError attempt e],
               (Throw (ErrorObj m)).
        split.
        -- apply attempts_throw; auto. now left.
        -- now rewrite extended_sent, extended_emit.
Qed.

(** A run ends with a returned data URL or with a thrown [Error]. *)
Lemma attempts_outcome ai request attempt k trace out :
  attempts ai request attempt k trace out ->
  (exists blob, out = Normal (Some (dataUrl blob))) \/
  (exists m, out = Throw (ErrorObj m)).
Proof.
  induction 1 as [attempt k r blob| |]; [left|right|assumption]; now eexists.
Qed.

(** [callGeminiImageApi] makes one of the runs from attempt 1 and hands on
    how it ends. *)
Lemma callGeminiImageApi_attempts ai request w :
  exists trace out,
    attempts ai request 1 (calls w) trace out /\
    snd (callGeminiImageApi ai request w) =
    extended w (invocations trace) trace /\
    ((exists v, out = Normal (Some v) /\
                fst (callGeminiImageApi ai request w) = Normal v) \/
     (exists m, out = Throw (ErrorObj m) /\
                fst (callGeminiImageApi ai request w) = Throw (ErrorObj m))).
Proof.
  destruct (forLoop_attempts ai request _ 1 w eq_refl
              ltac:(unfold maxRetries; lia)) as (trace & out & Hrun & Hloop).
  exists trace, out. split; [exact Hrun|].
  unfold callGeminiImageApi. rewrite Hloop.
  destruct (attempts_outcome _ _ _ _ _ _ Hrun) as [[blob ->]|[m ->]];
    cbn [fst snd]; (split; [reflexivity|]).
  - left. now eexists.
  - right. now eexists.
Qed.

(** *** What all runs have in common *)

Lemma attempts_counts ai request attempt k trace out :
  attempts ai request attempt k trace out ->
  invocations trace = S (List.length (suspensions trace)) /\
  requestsOf trace = repeat request (invocations trace) /\
  (Z.of_nat (invocations trace) <= Z.max 1 (maxRetries + 1 - attempt))%Z.
Proof.
  induction 1 as [| |attempt k e trace out Hai Hm Hlt Hrun (Hn & Hreq & Hle)];
    cbn [invocations suspensions requestsOf flat_map app List.length repeat].
  - repeat split; lia.
  - repeat split; lia.
  - split; [lia|]. split; [now rewrite <- Hreq|]. lia.
Qed.

(** From attempt 1 the waits are none, 1500 ms, or 1500 ms and 3000 ms. *)
Lemma attempts_waits ai request k trace out :
  attempts ai request 1 k trace out ->
  suspensions trace = [] \/ suspensions trace = [1500%Z] \/
  suspensions trace = [1500%Z; 3000%Z].
Proof.
  intros H1. inversion H1 as [| |a1 k1 e1 t1 o1 _ _ _ H2]; subst;
    [now left | now left |].
  inversion H2 as [| |a2 k2 e2 t2 o2 _ _ _ H3]; subst;
    [right; now left | right; now left |].
  inversion H3 as [| |a3 k3 e3 t3 o3 _ _ Hlt _]; subst;
    [right; now right | right; now right |].
  exfalso. unfold maxRetries in Hlt. lia.
Qed.

Lemma lastEvent_app (l trace : list event) ev :
  lastEvent trace = Some ev -> lastEvent (l ++ trace) = Some ev.
Proof.
  unfold lastEvent. intros H.
  destruct trace as [|x trace]; [discriminate|].
  induction l as [|y l IH]; [exact H|].
  rewrite <- IH. cbn [app map last].
  destruct (l ++ x :: trace) eqn:E; [now destruct l|reflexivity].
Qed.

Lemma lastEvent_cons ev ev' (trace : list event) :
  lastEvent (ev :: ev' :: trace) = lastEvent (ev' :: trace).
Proof. reflexivity. Qed.

(** How a run ends: on the call that was answered with the image, or on the
    console output for the failure that is thrown on. *)
Lemma attempts_end ai request attempt k trace out :
  attempts ai request attempt k trace out ->
  (forall v, out = Normal (Some v) ->
     lastEvent trace = Some (GenerateContent request) /\
     exists r blob,
       ai (k + invocations trace - 1) request = Fulfilled r /\
       optInlineData (findImagePart r) = Some blob /\ v = dataUrl blob) /\
  (forall t, out = Throw t ->
     exists e m,
       lastEvent trace =
         Some (ConsoleError (attempt + Z.of_nat (invocations trace) - 1) e) /\
       attemptFails ai request (k + invocations trace - 1) e /\
       thrownOn e m /\ t = ErrorObj m).
Proof.
  induction 1 as [attempt k r blob Hai Himg|attempt k e m Hfail Hwhy Hm
                  |attempt k e trace out Hai Hm Hlt Hrun [IHv IHt]].
  - split; [|discriminate]. intros v [= <-]. split; [reflexivity|].
    exists r, blob. simpl. now replace (k + 1 - 1) with k by lia.
  - split; [discriminate|]. intros t [= <-]. exists e, m. simpl.
    replace (k + 1 - 1) with k by lia.
    now replace (attempt + 1 - 1)%Z with attempt by lia.
  - assert (Hpos : 1 <= invocations trace)
      by (destruct (attempts_counts _ _ _ _ _ _ Hrun) as (-> & _); lia).
    change (invocations (GenerateContent request :: ConsoleError attempt e
              :: SetTimeout (initialDelay * 2 ^ (attempt - 1)) :: trace))
      with (S (invocations trace)).
    replace (k + S (invocations trace) - 1)
      with (S k + invocations trace - 1) by lia.
    replace (attempt + Z.of_nat (S (invocations trace)) - 1)%Z
      with (attempt + 1 + Z.of_nat (invocations trace) - 1)%Z by lia.
    split.
    + intros v Hv. destruct (IHv v Hv) as (Hlast & Hrest).
      split; [|exact Hrest].
      now apply (lastEvent_app [_; _; _]).
    + intros t Ht. destruct (IHt t Ht) as (e' & m & Hlast & Hrest).
      exists e', m. split; [|exact Hrest].
      now apply (lastEvent_app [_; _; _]).
Qed.

(** The summary of a call that the component's handlers rely on. *)
Lemma call_summary ai request w :
  exists trace,
    snd (callGeminiImageApi ai request w) = extended w (invocations trace) trace /\
    1 <= invocations trace <= 3 /\
    requestsOf trace = repeat request (invocations trace) /\
    ((exists blob, fst (callGeminiImageApi ai request w) = Normal (dataUrl blob)) \/
     (exists m, fst (callGeminiImageApi ai request w) = Throw (ErrorObj m))).
Proof.
  destruct (callGeminiImageApi_attempts ai request w)
    as (trace & out & Hrun & Hw & Hout).
  exists trace. split; [exact Hw|].
  destruct (attempts_counts _ _ _ _ _ _ Hrun) as (Hn & Hreq & Hle).
  split; [unfold maxRetries in Hle; lia|]. split; [exact Hreq|].
  destruct Hout as [(v & -> & Hv)|(m & _ & Hm)].
  - left. destruct (attempts_outcome _ _ _ _ _ _ Hrun) as [[blob [= ->]]|[m [=]]].
    now exists blob.
  - right. now exists m.
Qed.

End RetryRuns.

(* ===================================================================== *)
(** ** More facts about strings, split and the data URL *)
(* ===================================================================== *)

Module SplitFacts.

Import JS JSFacts.

Lemma length_append (a b : string) :
  String.length (a ++ b) = String.length a + String.length b.
Proof. induction a as [|x a IH]; simpl; [reflexivity | now rewrite IH]. Qed.

Lemma append_cancel_l (p a b : string) : p ++ a = p ++ b -> a = b.
Proof.
  induction p as [|x p IH]; simpl; [auto|]. intros [= H]. auto.
Qed.

Lemma append_cancel_r (s a b : string) : a ++ s = b ++ s -> a = b.
Proof.
  revert b; induction a as [|x a IH]; intros [|y b] H; simpl in H.
  - reflexivity.
  - apply (f_equal String.length) in H. simpl in H.
    rewrite length_append in H. lia.
  - apply (f_equal String.length) in H. simpl in H.
    rewrite length_append in H. lia.
  - injection H as -> H. now rewrite (IH _ H).
Qed.

Lemma startsWith_trans (a b c : string) :
  startsWith a b = true -> startsWith b c = true -> startsWith a c = true.
Proof.
  intros Hab Hbc.
  apply startsWith_inv in Hab as [r ->]. apply startsWith_inv in Hbc as [r' ->].
  rewrite append_assoc. apply startsWith_append.
Qed.

Lemma startsWith_weaken (a x h : string) :
  startsWith a h = true -> startsWith (a ++ x) h = true.
Proof.
  intros H. apply startsWith_inv in H as [r ->].
  rewrite append_assoc. apply startsWith_append.
Qed.

(** No segment holds the separator. *)
Lemma split_segments_clean (s : string) (sep : ascii) (seg : string) :
  In seg (split s sep) -> hasChar sep seg = false.
Proof.
  revert seg; induction s as [|a s IH]; intros seg; simpl.
  - now intros [<-|[]].
  - destruct (Ascii.eqb a sep) eqn:Ha.
    + intros [<-|H]; [reflexivity | auto].
    + destruct (split_cons s sep) as (h & t & Hs). rewrite Hs in *.
      intros [<-|H].
      * simpl. rewrite Ha. apply IH. now left.
      * apply IH. now right.
Qed.

(** A segment holds no character that the string does not hold. *)
Lemma split_segments_sub (s : string) (sep c : ascii) (seg : string) :
  hasChar c s = false -> In seg (split s sep) -> hasChar c seg = false.
Proof.
  revert seg; induction s as [|a s IH]; intros seg; simpl.
  - now intros _ [<-|[]].
  - intros Hc. apply orb_false_iff in Hc as [Hac Hs].
    destruct (Ascii.eqb a sep).
    + intros [<-|H]; [reflexivity | auto].
    + destruct (split_cons s sep) as (h & t & Hsp). rewrite Hsp in *.
      intros [<-|H].
      * simpl. rewrite Hac. apply IH; [exact Hs | now left].
      * apply IH; [exact Hs | now right].
Qed.

(** A string that holds the separator has at least two segments. *)
Lemma split_two (s : string) (sep : ascii) :
  hasChar sep s = true -> exists a b rest, split s sep = a :: b :: rest.
Proof.
  induction s as [|x s IH]; simpl; [discriminate|].
  destruct (Ascii.eqb x sep) eqn:Hx; simpl.
  - intros _. destruct (split_cons s sep) as (h & t & ->).
    now exists "", h, t.
  - intros H. destruct (IH H) as (a & b & rest & ->).
    now exists (String x a), b, rest.
Qed.

(** The first segment begins the string. *)
Lemma split_head_prefix (s : string) (sep : ascii) (h : string) (t : list string) :
  split s sep = h :: t -> startsWith s h = true.
Proof.
  revert h t; induction s as [|x s IH]; intros h t; simpl.
  - now intros [= <- <-].
  - destruct (Ascii.eqb x sep).
    + now intros [= <- <-].
    + destruct (split_cons s sep) as (h' & t' & Hs). rewrite Hs.
      intros [= <- <-]. simpl. rewrite Ascii.eqb_refl. simpl.
      now apply (IH h' t').
Qed.

(** Before the first separator, a prefix stays in front of the first
    segment. *)
Lemma split_skip (p s : string) (sep : ascii) (h : string) (t : list string) :
  hasChar sep p = false -> split s sep = h :: t ->
  split (p ++ s) sep = (p ++ h) :: t.
Proof.
  intros Hp Hs. induction p as [|x p IH]; simpl; [exact Hs|].
  simpl in Hp. apply orb_false_iff in Hp as [Hx Hp].
  now rewrite Hx, (IH Hp).
Qed.

(** What follows a separator does not change the first segment. *)
Lemma split_head_cut (a b : string) (sep : ascii) :
  exists h t t', split (a ++ String sep b) sep = h :: t /\
                 split a sep = h :: t'.
Proof.
  induction a as [|x a (h & t & t' & H1 & H2)]; simpl.
  - rewrite Ascii.eqb_refl. now eexists _, _, _.
  - destruct (Ascii.eqb x sep); [now eexists _, _, _|].
    rewrite H1, H2. now eexists _, _, _.
Qed.

End SplitFacts.

(* ===================================================================== *)
(** ** What the service functions do in every run *)
(* ===================================================================== *)

Module ServiceFacts.

Import JS GeminiService Spec Runs JSFacts SplitFacts RetryRuns.
Local Open Scope list_scope.

(** X1.  Whatever the service answers, one call of [callGeminiImageApi]
    invokes the model at least once and at most three times, counts each
    invocation, waits once less than it invokes, and the waits are, in
    order, 1500 ms and 3000 ms. *)
Theorem retry_budget ai request w :
  exists trace,
    snd (callGeminiImageApi ai request w) = extended w (invocations trace) trace /\
    1 <= invocations trace <= 3 /\
    invocations trace = S (List.length (suspensions trace)) /\
    (suspensions trace = [] \/ suspensions trace = [1500%Z] \/
     suspensions trace = [1500%Z; 3000%Z]).
Proof.
  destruct (callGeminiImageApi_attempts ai request w)
    as (trace & out & Hrun & Hw & _).
  exists trace. split; [exact Hw|].
  destruct (attempts_counts _ _ _ _ _ _ Hrun) as (Hn & _ & Hle).
  split; [|split; [exact Hn | exact (attempts_waits _ _ _ _ _ Hrun)]].
  unfold maxRetries in Hle. lia.
Qed.

(** X2.  Every invocation made for a generation carries the same single
    text part with the generate prompt, and every invocation made for an
    edit carries the same two parts, the inline data taken from the URL and
    then the edit prompt: a retry sends the request again unchanged. *)
Theorem service_requests ai w :
  (forall placeName,
      exists trace,
        snd (generateWatercolourPainting ai placeName w) =
        extended w (invocations trace) trace /\
        requestsOf trace =
        repeat (generateRequest placeName) (invocations trace)) /\
  (forall url editPrompt originalPlace,
      exists d m trace,
        parseDataUrl url = Some (d, m) /\
        snd (editWatercolourPainting ai url editPrompt originalPlace w) =
        extended w (invocations trace) trace /\
        requestsOf trace =
        repeat (editRequest d m editPrompt originalPlace) (invocations trace)).
Proof.
  split.
  - intros placeName. unfold generateWatercolourPainting.
    destruct (callGeminiImageApi_attempts ai (generateRequest placeName) w)
      as (trace & out & Hrun & Hw & _).
    exists trace. split; [exact Hw|].
    now destruct (attempts_counts _ _ _ _ _ _ Hrun) as (_ & Hreq & _).
  - intros url editPrompt originalPlace.
    destruct (DataUrl.parseDataUrl_total url) as [m Hparse].
    unfold editWatercolourPainting. rewrite Hparse.
    destruct (callGeminiImageApi_attempts ai
                (editRequest (index (split url ",") 1) m editPrompt originalPlace) w)
      as (trace & out & Hrun & Hw & _).
    exists (index (split url ",") 1), m, trace.
    split; [reflexivity|]. split; [exact Hw|].
    now destruct (attempts_counts _ _ _ _ _ _ Hrun) as (_ & Hreq & _).
Qed.

(** X3.  A string returned by [callGeminiImageApi] is the data URL of the
    first image of the response to the last invocation made, and nothing
    is done after that invocation. *)
Theorem returned_image_of_last_response ai request w v w' :
  callGeminiImageApi ai request w = (Normal v, w') ->
  lastEvent (log w') = Some (GenerateContent request) /\
  exists r blob,
    ai (calls w' - 1) request = Fulfilled r /\
    optInlineData (findImagePart r) = Some blob /\
    v = dataUrl blob.
Proof.
  intros Hcall.
  destruct (callGeminiImageApi_attempts ai request w)
    as (trace & out & Hrun & Hw & Hout).
  rewrite Hcall in Hw, Hout. cbn [fst snd] in Hw, Hout. subst w'.
  destruct Hout as [(v' & -> & [= <-])|(m & _ & [=])].
  destruct (proj1 (attempts_end _ _ _ _ _ _ Hrun) v eq_refl)
    as (Hlast & r & blob & Hr & Himg & ->).
  split; [now apply lastEvent_app|].
  exists r, blob. repeat split; auto. cbn [extended calls].
  now replace (invocations trace + calls w - 1)
    with (calls w + invocations trace - 1) by lia.
Qed.

Lemma returned_image_of_last_response_witness :
  lastEvent
    (log (snd (callGeminiImageApi
                 (failsUntil 1 (ErrorObj "503 INTERNAL") pngResponse)
                 [textPart "Paris"] emptyWorld))) =
  Some (GenerateContent [textPart "Paris"]).
Proof.
  exact (proj1 (returned_image_of_last_response
                  (failsUntil 1 (ErrorObj "503 INTERNAL") pngResponse)
                  [textPart "Paris"] emptyWorld _ _ eq_refl)).
Defined.



(** X5.  Two place descriptions that give the same generate prompt are the
    same description. *)
Theorem generatePrompt_injective (p q : string) :
  generatePrompt p = generatePrompt q -> p = q.
Proof.
  unfold generatePrompt. intros H.
  apply append_cancel_l in H. now apply append_cancel_r in H.
Qed.

Lemma generatePrompt_injective_witness :
  "Paris"%string = "Paris"%string.
Proof.
  apply (generatePrompt_injective "Paris" "Paris"). reflexivity.
Defined.

(** X6.  Whatever string the edit operation takes apart, the payload it
    extracts holds no [,] and the media type it extracts holds neither [;]
    nor [:]. *)
Theorem parsed_parts_hold_no_separator (url : string) d m :
  parseDataUrl url = Some (d, m) ->
  (forall payload, d = Some payload -> hasChar "," payload = false) /\
  (forall mediaType, m = Some mediaType ->
     hasChar ";" mediaType = false /\ hasChar ":" mediaType = false).
Proof.
  unfold parseDataUrl.
  destruct (split_cons url ";") as (scheme & segs & Hs). rewrite Hs.
  change (index (scheme :: segs) 0) with (Some scheme). cbv beta iota.
  intros [= <- <-]. split.
  - intros payload H. apply (nth_error_In (split url ",") 1) in H.
    now apply split_segments_clean in H.
  - intros mediaType H. apply (nth_error_In (split scheme ":") 1) in H.
    assert (Hscheme : hasChar ";" scheme = false).
    { apply (split_segments_clean url). rewrite Hs. now left. }
    split.
    + exact (split_segments_sub _ _ _ _ Hscheme H).
    + now apply split_segments_clean in H.
Qed.

Lemma parsed_parts_hold_no_separator_witness :
  hasChar ";" "image/svg+xml" = false /\ hasChar ":" "image/svg+xml" = false.
Proof.
  exact (proj2 (parsed_parts_hold_no_separator
                  "data:image/svg+xml;charset=utf-8;base64,iVBORw0KGgo="
                  (Some "iVBORw0KGgo="%string) (Some "image/svg+xml"%string)
                  eq_refl) _ eq_refl).
Defined.

(** Any data URL that [callGeminiImageApi] builds is taken apart into a
    payload and a media type that are both there. *)
Lemma dataUrl_parts_defined (blob : Blob) :
  exists payload mediaType,
    parseDataUrl (dataUrl blob) = Some (Some payload, Some mediaType) /\
    startsWith (interpolate (mimeType blob)) mediaType = true.
Proof.
  unfold dataUrl.
  set (M := interpolate (mimeType blob)). set (D := interpolate (data blob)).
  assert (Hcomma : hasChar "," ("data:" ++ M ++ ";base64," ++ D)%string = true).
  { rewrite !hasChar_append.
    change (hasChar "," (";base64," ++ D)%string) with true.
    now rewrite !orb_true_r. }
  destruct (split_two _ _ Hcomma) as (a & payload & rest & Hsplit).
  destruct (split_head_cut M ("base64," ++ D)%string ";")
    as (h & t & t' & Hcut & HM).
  change (String ";" ("base64," ++ D))%string
    with (";base64," ++ D)%string in Hcut.
  pose proof (split_skip "data:" _ ";" h t eq_refl Hcut) as Hscheme.
  destruct (split_cons h ":") as (mediaType & segs & Hh).
  exists payload, mediaType. split.
  - unfold parseDataUrl. rewrite Hsplit, Hscheme.
    change (index (("data:" ++ h)%string :: t) 0)
      with (Some ("data:" ++ h)%string).
    cbv beta iota.
    change ("data:" ++ h)%string with ("data" ++ String ":" h)%string.
    rewrite split_first by reflexivity. now rewrite Hh.
  - apply (startsWith_trans _ h).
    + exact (split_head_prefix _ _ _ _ HM).
    + exact (split_head_prefix _ _ _ _ Hh).
Qed.

(** X7.  A string returned by [callGeminiImageApi], handed to the edit
    operation, is always taken apart into a payload and a media type that
    are both there, the media type being the beginning of the one the model
    gave: the request of an edit that follows never holds [undefined]. *)
Theorem returned_image_reparses ai request w v w' :
  callGeminiImageApi ai request w = (Normal v, w') ->
  exists blob payload mediaType,
    v = dataUrl blob /\
    parseDataUrl v = Some (Some payload, Some mediaType) /\
    startsWith (interpolate (mimeType blob)) mediaType = true.
Proof.
  intros Hcall.
  destruct (callGeminiImageApi_attempts ai request w)
    as (trace & out & Hrun & _ & Hout).
  rewrite Hcall in Hout. cbn [fst] in Hout.
  destruct Hout as [(v' & -> & [= <-])|(m & _ & [=])].
  destruct (attempts_outcome _ _ _ _ _ _ Hrun) as [[blob [= ->]]|[m [=]]].
  destruct (dataUrl_parts_defined blob) as (payload & mediaType & Hp & Hm).
  now exists blob, payload, mediaType.
Qed.

Lemma returned_image_reparses_witness :
  exists blob payload mediaType,
    "data:image/png;base64,iVBORw0KGgo="%string = dataUrl blob /\
    parseDataUrl "data:image/png;base64,iVBORw0KGgo=" =
    Some (Some payload, Some mediaType) /\
    startsWith (interpolate (mimeType blob)) mediaType = true.
Proof.
  exact (returned_image_reparses (alwaysAnswers pngResponse)
           [textPart "Paris"] emptyWorld _ _ eq_refl).
Defined.

End ServiceFacts.

(* ===================================================================== *)
(** ** What the component does in every session *)
(* ===================================================================== *)

Module AppFacts.

Import JS GeminiService Spec Runs App JSFacts SplitFacts RetryRuns.
Local Open Scope list_scope.

Lemma truthy_iff (s : string) : truthy s = true <-> s <> ""%string.
Proof. destruct s; simpl; split; congruence. Qed.

Lemma trimStart_head (s : string) :
  trimStart s = ""%string \/
  exists c t, trimStart s = String c t /\ isWhiteSpace c = false.
Proof.
  induction s as [|a s IH]; simpl; [now left|].
  destruct (isWhiteSpace a) eqn:Ha; [exact IH|].
  right. now exists a, s.
Qed.

Lemma trimEnd_cons (c : ascii) (t : string) :
  isWhiteSpace c = false -> trimEnd (String c t) = String c (trimEnd t).
Proof. intros Hc. simpl. rewrite Hc. now destruct (trimEnd t). Qed.

Lemma trimEnd_unfold (a : ascii) (s : string) :
  trimEnd (String a s) =
  match trimEnd s with
  | EmptyString => if isWhiteSpace a then EmptyString else String a EmptyString
  | t => String a t
  end.
Proof. reflexivity. Qed.

Lemma trimEnd_idem (s : string) : trimEnd (trimEnd s) = trimEnd s.
Proof.
  induction s as [|a s IH]; [reflexivity|].
  rewrite (trimEnd_unfold a s). destruct (trimEnd s) as [|b t] eqn:Ht.
  - destruct (isWhiteSpace a) eqn:Ha; [reflexivity|].
    rewrite trimEnd_unfold. cbn [trimEnd]. now rewrite Ha.
  - rewrite (trimEnd_unfold a (String b t)), IH. reflexivity.
Qed.

(** Trimming what is trimmed changes nothing. *)
Lemma trim_idem (s : string) : trim (trim s) = trim s.
Proof.
  unfold trim. destruct (trimStart_head s) as [->|(c & t & -> & Hc)].
  - reflexivity.
  - rewrite (trimEnd_cons _ _ Hc). cbn [trimStart]. rewrite Hc.
    rewrite (trimEnd_cons _ _ Hc). now rewrite trimEnd_idem.
Qed.

Lemma extended_nil w : extended w 0 [] = w.
Proof. destruct w. unfold extended. simpl. now rewrite app_nil_r. Qed.

(** *** The two handlers, once their guards are passed *)

Lemma handleGenerate_run ai st w :
  truthy (trim (place st)) = true ->
  handleGenerate ai st w =
  match generateWatercolourPainting ai (trim (place st)) w with
  | (Normal url, w') =>
      ({| place := place st; editPrompt := ""; error := None;
          isLoading := false; isEditing := isEditing st;
          watercolourPainting := url;
          currentSuggestionIndex := currentSuggestionIndex st |}, w')
  | (Throw err, w') =>
      ({| place := place st; editPrompt := "";
          error := Some (messageOr "Failed to generate watercolor painting." err);
          isLoading := false; isEditing := isEditing st;
          watercolourPainting := "";
          currentSuggestionIndex := currentSuggestionIndex st |}, w')
  end.
Proof.
  intros H. unfold handleGenerate. rewrite H. cbn [negb].
  now destruct (generateWatercolourPainting ai (trim (place st)) w)
    as [[url|err] w'].
Qed.

Lemma handleEdit_run ai st w :
  truthy (trim (editPrompt st)) = true ->
  truthy (watercolourPainting st) = true ->
  handleEdit ai st w =
  match editWatercolourPainting ai (watercolourPainting st) (editPrompt st)
          (place st) w with
  | (Normal url, w') =>
      ({| place := place st; editPrompt := ""; error := None;
          isLoading := isLoading st; isEditing := false;
          watercolourPainting := url;
          currentSuggestionIndex := currentSuggestionIndex st |}, w')
  | (Throw err, w') =>
      ({| place := place st; editPrompt := editPrompt st;
          error := Some (messageOr "Failed to refine the painting." err);
          isLoading := isLoading st; isEditing := false;
          watercolourPainting := watercolourPainting st;
          currentSuggestionIndex := currentSuggestionIndex st |}, w')
  end.
Proof.
  intros He Hp. unfold handleEdit. rewrite He, Hp. cbn [negb orb].
  now destruct (editWatercolourPainting ai (watercolourPainting st)
                  (editPrompt st) (place st) w) as [[url|err] w'].
Qed.

Lemma Forall_repeat {A} (P : A -> Prop) (x : A) (n : nat) :
  P x -> Forall P (repeat x n).
Proof. intros H. induction n; simpl; constructor; auto. Qed.

(** A generation from a settled component. *)
Lemma handleGenerate_summary ai st w :
  settled st -> truthy (trim (place st)) = true ->
  exists trace,
    snd (handleGenerate ai st w) = extended w (invocations trace) trace /\
    invocations trace <= 3 /\
    Forall componentRequest (requestsOf trace) /\
    settled (fst (handleGenerate ai st w)).
Proof.
  intros ((Hl & He) & Hidx & Hpic) Hplace.
  rewrite (handleGenerate_run _ _ _ Hplace). unfold generateWatercolourPainting.
  destruct (call_summary ai [textPart (generatePrompt (trim (place st)))] w)
    as (trace & Hw & Hn & Hreq & Hout).
  exists trace.
  destruct (callGeminiImageApi ai [textPart (generatePrompt (trim (place st)))] w)
    as [[url|err] w'] eqn:Hcall.
  all: cbn [fst snd] in *; subst w'.
  all: split; [reflexivity|]; split; [lia|]; split.
  1,3: rewrite Hreq; apply Forall_repeat; left; exists (trim (place st));
    split; [reflexivity|]; split; [apply trim_idem | now apply truthy_iff].
  - destruct Hout as [[blob [= ->]]|[m [=]]].
    repeat split; auto. right. now exists blob.
  - repeat split; auto.
Qed.

(** A refinement from a settled component that shows a picture. *)
Lemma handleEdit_summary ai st w :
  settled st ->
  truthy (trim (editPrompt st)) = true ->
  truthy (watercolourPainting st) = true ->
  exists trace,
    snd (handleEdit ai st w) = extended w (invocations trace) trace /\
    invocations trace <= 3 /\
    Forall componentRequest (requestsOf trace) /\
    settled (fst (handleEdit ai st w)).
Proof.
  intros ((Hl & He) & Hidx & Hpic) Hedit Hshown.
  rewrite (handleEdit_run _ _ _ Hedit Hshown).
  destruct Hpic as [Hempty|[blob Hblob]];
    [rewrite Hempty in Hshown; discriminate|].
  destruct (ServiceFacts.dataUrl_parts_defined blob) as (d & m & Hparse & _).
  unfold editWatercolourPainting. rewrite Hblob, Hparse.
  destruct (call_summary ai
              [inlineDataPart (Some d) (Some m);
               textPart (editPromptText (editPrompt st) (place st))] w)
    as (trace & Hw & Hn & Hreq & Hout).
  exists trace.
  destruct (callGeminiImageApi ai
              [inlineDataPart (Some d) (Some m);
               textPart (editPromptText (editPrompt st) (place st))] w)
    as [[url|err] w'] eqn:Hcall.
  all: cbn [fst snd] in *; subst w'.
  all: split; [reflexivity|]; split; [lia|]; split.
  1,3: rewrite Hreq; apply Forall_repeat; right;
    exists d, m, (editPrompt st), (place st);
    split; [reflexivity | now apply truthy_iff].
  - destruct Hout as [[blob' [= ->]]|[m' [=]]].
    repeat split; auto. right. now exists blob'.
  - repeat split; auto. right. exists blob. now rewrite <- Hblob.
Qed.

Lemma settled_setPlace v st : settled st -> settled (setPlace v st).
Proof. now intros ((Hl & He) & Hidx & Hpic). Qed.

Lemma settled_setEditPrompt v st : settled st -> settled (setEditPrompt v st).
Proof. now intros ((Hl & He) & Hidx & Hpic). Qed.

Lemma no_effect (st : State) (w : World) (P : State -> Prop) :
  P st ->
  exists trace,
    w = extended w (invocations trace) trace /\
    invocations trace <= 3 /\
    Forall componentRequest (requestsOf trace) /\
    P st.
Proof.
  intros H. exists []. rewrite extended_nil.
  split; [reflexivity|]. split; [simpl; lia|]. split; [constructor | exact H].
Qed.

(** One event on a settled component. *)
Lemma dispatch_summary ai ev st w :
  settled st ->
  exists trace,
    snd (dispatch ai ev st w) = extended w (invocations trace) trace /\
    invocations trace <= 3 /\
    Forall componentRequest (requestsOf trace) /\
    settled (fst (dispatch ai ev st w)).
Proof.
  intros Hs. destruct ev as [v| |v| |s|]; cbn [dispatch].
  - destruct (isLoading st || isEditing st); cbn [fst snd];
      apply no_effect; auto using settled_setPlace.
  - unfold generateDisabled.
    destruct (isLoading st || isEditing st); cbn [orb fst snd];
      [now apply no_effect|].
    destruct (truthy (trim (place st))) eqn:Hp; cbn [negb fst snd].
    + now apply handleGenerate_summary.
    + now apply no_effect.
  - destruct (refineFormShown st && negb (isEditing st)); cbn [fst snd];
      apply no_effect; auto using settled_setEditPrompt.
  - unfold refineFormShown, editDisabled.
    destruct (truthy (watercolourPainting st)) eqn:Hshown; cbn [andb fst snd];
      [|now apply no_effect].
    destruct (isLoading st); cbn [negb andb fst snd];
      [now apply no_effect|].
    destruct (isEditing st); cbn [orb negb fst snd];
      [now apply no_effect|].
    destruct (truthy (trim (editPrompt st))) eqn:Hedit; cbn [negb fst snd].
    + now apply handleEdit_summary.
    + now apply no_effect.
  - destruct (isLoading st || isEditing st) eqn:Hbusy; cbn [fst snd];
      [now apply no_effect|].
    unfold generateDisabled. cbn [isLoading isEditing setPlace place].
    rewrite Hbusy. cbn [orb].
    destruct (truthy (trim s)) eqn:Hp; cbn [negb fst snd].
    + apply handleGenerate_summary; [now apply settled_setPlace | exact Hp].
    + apply no_effect. now apply settled_setPlace.
  - cbn [fst snd]. apply no_effect.
    destruct Hs as ((Hl & He) & Hidx & Hpic). repeat split; auto.
    cbn [currentSuggestionIndex setCurrentSuggestionIndex].
    apply Nat.mod_upper_bound. discriminate.
Qed.

(** Any number of events on a settled component. *)
Lemma run_summary ai evs :
  forall st w,
    settled st ->
    exists trace,
      snd (run ai evs st w) = extended w (invocations trace) trace /\
      invocations trace <= 3 * List.length evs /\
      Forall componentRequest (requestsOf trace) /\
      settled (fst (run ai evs st w)).
Proof.
  induction evs as [|ev evs IH]; intros st w Hs; cbn [run].
  - exists []. rewrite extended_nil. cbn [fst snd].
    split; [reflexivity|]. split; [simpl; lia|]. split; [constructor|exact Hs].
  - destruct (dispatch_summary ai ev st w Hs) as (t1 & Hw1 & Hn1 & Hr1 & Hs1).
    destruct (dispatch ai ev st w) as [st1 w1]. cbn [fst snd] in *. subst w1.
    destruct (IH st1 (extended w (invocations t1) t1) Hs1)
      as (t2 & Hw2 & Hn2 & Hr2 & Hs2).
    exists (t1 ++ t2).
    assert (Hinv : invocations (t1 ++ t2) = invocations t1 + invocations t2).
    { clear. induction t1 as [|[]]; simpl; auto. }
    assert (Hreq : requestsOf (t1 ++ t2) = requestsOf t1 ++ requestsOf t2).
    { unfold requestsOf. apply flat_map_app. }
    rewrite Hw2, extended_extended, Hinv, Hreq.
    split; [reflexivity|]. split; [cbn [List.length]; lia|].
    split; [now apply Forall_app | exact Hs2].
Qed.

Lemma settled_initialState : settled initialState.
Proof. repeat split; [cbn; lia | now left]. Qed.

(** *** The handlers on any state *)

Lemma handleGenerate_any ai st w :
  exists trace,
    snd (handleGenerate ai st w) = extended w (invocations trace) trace /\
    invocations trace <= 3 /\
    currentSuggestionIndex (fst (handleGenerate ai st w)) =
    currentSuggestionIndex st /\
    place (fst (handleGenerate ai st w)) = place st /\
    Forall (placeRequest (place st)) (requestsOf trace).
Proof.
  destruct (truthy (trim (place st))) eqn:Hp.
  - rewrite (handleGenerate_run _ _ _ Hp). unfold generateWatercolourPainting.
    destruct (call_summary ai [textPart (generatePrompt (trim (place st)))] w)
      as (trace & Hw & Hn & Hreq & _).
    exists trace.
    destruct (callGeminiImageApi ai
                [textPart (generatePrompt (trim (place st)))] w)
      as [[url|err] w'].
    all: cbn [fst snd] in *; subst w'.
    all: repeat split; try lia.
    all: rewrite Hreq; apply Forall_repeat; now left.
  - unfold handleGenerate. rewrite Hp. cbn [negb fst snd].
    exists []. rewrite extended_nil. repeat split; simpl; try lia. constructor.
Qed.

Lemma handleEdit_any ai st w :
  exists trace,
    snd (handleEdit ai st w) = extended w (invocations trace) trace /\
    invocations trace <= 3 /\
    currentSuggestionIndex (fst (handleEdit ai st w)) =
    currentSuggestionIndex st /\
    place (fst (handleEdit ai st w)) = place st /\
    Forall (placeRequest (place st)) (requestsOf trace).
Proof.
  destruct (truthy (trim (editPrompt st))) eqn:He;
    [destruct (truthy (watercolourPainting st)) eqn:Hp|].
  - rewrite (handleEdit_run _ _ _ He Hp).
    destruct (DataUrl.parseDataUrl_total (watercolourPainting st)) as [m Hparse].
    unfold editWatercolourPainting. rewrite Hparse.
    set (d := index (split (watercolourPainting st) ",") 1).
    destruct (call_summary ai
                [inlineDataPart d m;
                 textPart (editPromptText (editPrompt st) (place st))] w)
      as (trace & Hw & Hn & Hreq & _).
    exists trace.
    destruct (callGeminiImageApi ai
                [inlineDataPart d m;
                 textPart (editPromptText (editPrompt st) (place st))] w)
      as [[url|err] w'].
    all: cbn [fst snd] in *; subst w'.
    all: repeat split; try lia.
    all: rewrite Hreq; apply Forall_repeat; right; now exists d, m, (editPrompt st).
  - unfold handleEdit. rewrite He, Hp. cbn [negb orb fst snd].
    exists []. rewrite extended_nil. repeat split; simpl; try lia. constructor.
  - unfold handleEdit. rewrite He. cbn [negb orb fst snd].
    exists []. rewrite extended_nil. repeat split; simpl; try lia. constructor.
Qed.

Lemma nothing_done (st st' : State) (w : World) (p : string) :
  exists trace,
    w = extended w (invocations trace) trace /\
    invocations trace <= 3 /\
    Forall (placeRequest p) (requestsOf trace).
Proof.
  exists []. rewrite extended_nil. repeat split; simpl; try lia. constructor.
Qed.

(** One event on any state of the component. *)
Lemma dispatch_any ai ev st w :
  exists trace,
    snd (dispatch ai ev st w) = extended w (invocations trace) trace /\
    invocations trace <= 3 /\
    currentSuggestionIndex (fst (dispatch ai ev st w)) =
    match ev with
    | SuggestionTick =>
        Nat.modulo (currentSuggestionIndex st + 1) (List.length SUGGESTIONS)
    | _ => currentSuggestionIndex st
    end /\
    (leavesPlace ev = true ->
     place (fst (dispatch ai ev st w)) = place st /\
     Forall (placeRequest (place st)) (requestsOf trace)).
Proof.
  destruct ev as [v| |v| |s|]; cbn [dispatch leavesPlace].
  - destruct (nothing_done st st w (place st)) as (trace & Hw & Hn & _).
    exists trace.
    destruct (isLoading st || isEditing st); cbn [fst snd];
      repeat split; auto; discriminate.
  - destruct (generateDisabled st); cbn [fst snd].
    + destruct (nothing_done st st w (place st)) as (trace & Hw & Hn & Hr).
      exists trace. repeat split; auto.
    + destruct (handleGenerate_any ai st w) as (trace & Hw & Hn & Hi & Hp & Hr).
      exists trace. repeat split; auto.
  - destruct (nothing_done st st w (place st)) as (trace & Hw & Hn & Hr).
    exists trace.
    destruct (refineFormShown st && negb (isEditing st)); cbn [fst snd];
      repeat split; auto.
  - destruct (refineFormShown st && negb (editDisabled st)); cbn [fst snd].
    + destruct (handleEdit_any ai st w) as (trace & Hw & Hn & Hi & Hp & Hr).
      exists trace. repeat split; auto.
    + destruct (nothing_done st st w (place st)) as (trace & Hw & Hn & Hr).
      exists trace. repeat split; auto.
  - destruct (isLoading st || isEditing st); cbn [fst snd].
    + destruct (nothing_done st st w (place st)) as (trace & Hw & Hn & Hr).
      exists trace. repeat split; auto; discriminate.
    + destruct (generateDisabled (setPlace s st)); cbn [fst snd].
      * destruct (nothing_done st st w (place st)) as (trace & Hw & Hn & Hr).
        exists trace. repeat split; auto; discriminate.
      * destruct (handleGenerate_any ai (setPlace s st) w)
          as (trace & Hw & Hn & Hi & Hp & Hr).
        exists trace. repeat split; auto; discriminate.
  - destruct (nothing_done st st w (place st)) as (trace & Hw & Hn & Hr).
    exists trace. cbn [fst snd]. repeat split; auto.
Qed.

Lemma invocations_app (t1 t2 : list event) :
  invocations (t1 ++ t2) = invocations t1 + invocations t2.
Proof. induction t1 as [|[]]; simpl; auto. Qed.

(** Any number of events on any state. *)
Lemma run_calls ai evs :
  forall st w,
    exists trace,
      snd (run ai evs st w) = extended w (invocations trace) trace /\
      invocations trace <= 3 * List.length evs.
Proof.
  induction evs as [|ev evs IH]; intros st w; cbn [run].
  - exists []. rewrite extended_nil. split; [reflexivity | simpl; lia].
  - destruct (dispatch_any ai ev st w) as (t1 & Hw1 & Hn1 & _).
    destruct (dispatch ai ev st w) as [st1 w1]. cbn [fst snd] in *. subst w1.
    destruct (IH st1 (extended w (invocations t1) t1)) as (t2 & Hw2 & Hn2).
    exists (t1 ++ t2).
    rewrite Hw2, extended_extended, invocations_app.
    split; [reflexivity | cbn [List.length]; lia].
Qed.

Lemma run_index ai evs :
  forall st w,
    currentSuggestionIndex st < List.length SUGGESTIONS ->
    currentSuggestionIndex (fst (run ai evs st w)) =
    Nat.modulo (currentSuggestionIndex st + ticks evs) (List.length SUGGESTIONS).
Proof.
  induction evs as [|ev evs IH]; intros st w Hidx; cbn [run].
  - cbn [fst ticks]. rewrite Nat.add_0_r. symmetry. now apply Nat.mod_small.
  - destruct (dispatch_any ai ev st w) as (t1 & _ & _ & Hi & _).
    destruct (dispatch ai ev st w) as [st1 w1]. cbn [fst snd] in *.
    assert (Hlen : List.length SUGGESTIONS <> 0) by discriminate.
    destruct ev; cbn [ticks]; rewrite IH; rewrite Hi; auto.
    + rewrite Nat.Div0.add_mod_idemp_l. f_equal. lia.
    + now apply Nat.mod_upper_bound.
Qed.


End AppFacts.

(* ===================================================================== *)
(** ** Properties of the component *)
(* ===================================================================== *)

Module Component.

Import JS GeminiService Spec Runs App JSFacts SplitFacts RetryRuns AppFacts.
Local Open Scope list_scope.

(** X8.  Whatever the user does and whatever the service answers, every
    request that the component sends from its first state on is a generate
    request for a trimmed, non-empty place description, or an edit request
    with a payload, a media type and an instruction that is not blank. *)
Theorem session_requests_well_formed ai evs w :
  exists trace,
    snd (run ai evs initialState w) = extended w (invocations trace) trace /\
    Forall componentRequest (requestsOf trace).
Proof.
  destruct (run_summary ai evs initialState w settled_initialState)
    as (trace & Hw & _ & Hreq & _).
  now exists trace.
Qed.


(** X10.  The suggestion shown as placeholder is moved by the timer only:
    after any events its index is the number of ticks modulo the number of
    suggestions, so there is always a suggestion at that index. *)
Theorem suggestion_rotates ai evs w :
  currentSuggestionIndex (fst (run ai evs initialState w)) =
  Nat.modulo (ticks evs) (List.length SUGGESTIONS) /\
  exists s,
    index SUGGESTIONS (currentSuggestionIndex (fst (run ai evs initialState w)))
    = Some s.
Proof.
  assert (H : currentSuggestionIndex (fst (run ai evs initialState w)) =
              Nat.modulo (ticks evs) (List.length SUGGESTIONS)).
  { rewrite run_index by (cbn; lia). reflexivity. }
  split; [exact H|]. rewrite H. unfold index.
  destruct (nth_error SUGGESTIONS (ticks evs mod List.length SUGGESTIONS))
    as [s|] eqn:Hs; [now exists s|].
  apply nth_error_None in Hs.
  pose proof (Nat.mod_upper_bound (ticks evs) (List.length SUGGESTIONS)
                ltac:(discriminate)).
  lia.
Qed.

(** X11.  From any state, a session of [n] events invokes the model at most
    [3 * n] times, and the count of calls never goes down. *)
Theorem session_call_bound ai evs st w :
  calls w <= calls (snd (run ai evs st w)) <= calls w + 3 * List.length evs.
Proof.
  destruct (run_calls ai evs st w) as (trace & -> & Hn).
  cbn [extended calls]. lia.
Qed.

(** X12.  A generation for a place that is not blank ends in one of two
    ways: a picture that is a data URL and no error, or no picture at all
    (an earlier picture is gone) and, as error, the very message that the
    service threw.  The place field is left as typed, the refine field is
    emptied and the loading flag is down. *)
Theorem generation_outcome ai st w :
  truthy (trim (place st)) = true ->
  place (fst (handleGenerate ai st w)) = place st /\
  editPrompt (fst (handleGenerate ai st w)) = ""%string /\
  isLoading (fst (handleGenerate ai st w)) = false /\
  ((isDataUrl (watercolourPainting (fst (handleGenerate ai st w))) /\
    error (fst (handleGenerate ai st w)) = None /\
    fst (generateWatercolourPainting ai (trim (place st)) w) =
    Normal (watercolourPainting (fst (handleGenerate ai st w)))) \/
   (watercolourPainting (fst (handleGenerate ai st w)) = ""%string /\
    exists m,
      error (fst (handleGenerate ai st w)) = Some m /\
      fst (generateWatercolourPainting ai (trim (place st)) w) =
      Throw (ErrorObj m))).
Proof.
  intros Hp. rewrite (handleGenerate_run _ _ _ Hp).
  unfold generateWatercolourPainting.
  destruct (call_summary ai [textPart (generatePrompt (trim (place st)))] w)
    as (trace & _ & _ & _ & Hout).
  destruct (callGeminiImageApi ai [textPart (generatePrompt (trim (place st)))] w)
    as [[url|err] w']; cbn [fst snd] in *.
  - destruct Hout as [[blob [= ->]]|[m [=]]].
    repeat split. left. repeat split. now exists blob.
  - destruct Hout as [[blob [=]]|[m [= ->]]].
    repeat split. right. split; [reflexivity|]. now exists m.
Qed.

Lemma generation_outcome_witness :
  watercolourPainting
    (fst (handleGenerate (alwaysRejects (ErrorObj "401 unauthorized"))
            showingParis emptyWorld)) = ""%string /\
  error
    (fst (handleGenerate (alwaysRejects (ErrorObj "401 unauthorized"))
            showingParis emptyWorld)) = Some "401 unauthorized"%string.
Proof.
  destruct (generation_outcome (alwaysRejects (ErrorObj "401 unauthorized"))
              showingParis emptyWorld eq_refl)
    as (_ & _ & _ & [(_ & H & _)|(H1 & m & H2 & H3)]).
  - discriminate H.
  - split; [exact H1|]. rewrite H2. injection H3 as <-. reflexivity.
Defined.

(** X13.  A refinement whose guards are passed ends in one of two ways: the
    new picture, a data URL, with the refine field emptied and no error; or
    the picture and the instruction exactly as they were and, as error, the
    very message that the service threw.  The place field is left as it is
    and the editing flag is down. *)
Theorem refinement_outcome ai st w :
  truthy (trim (editPrompt st)) = true ->
  truthy (watercolourPainting st) = true ->
  place (fst (handleEdit ai st w)) = place st /\
  isEditing (fst (handleEdit ai st w)) = false /\
  ((isDataUrl (watercolourPainting (fst (handleEdit ai st w))) /\
    editPrompt (fst (handleEdit ai st w)) = ""%string /\
    error (fst (handleEdit ai st w)) = None /\
    fst (editWatercolourPainting ai (watercolourPainting st) (editPrompt st)
           (place st) w) =
    Normal (watercolourPainting (fst (handleEdit ai st w)))) \/
   (watercolourPainting (fst (handleEdit ai st w)) = watercolourPainting st /\
    editPrompt (fst (handleEdit ai st w)) = editPrompt st /\
    exists m,
      error (fst (handleEdit ai st w)) = Some m /\
      fst (editWatercolourPainting ai (watercolourPainting st) (editPrompt st)
             (place st) w) = Throw (ErrorObj m))).
Proof.
  intros He Hp. rewrite (handleEdit_run _ _ _ He Hp).
  destruct (DataUrl.parseDataUrl_total (watercolourPainting st)) as [m Hparse].
  unfold editWatercolourPainting. rewrite Hparse.
  set (request := [inlineDataPart _ m; textPart _]).
  destruct (call_summary ai request w) as (trace & _ & _ & _ & Hout).
  destruct (callGeminiImageApi ai request w) as [[url|err] w'];
    cbn [fst snd] in *.
  - destruct Hout as [[blob [= ->]]|[m' [=]]].
    repeat split. left. repeat split. now exists blob.
  - destruct Hout as [[blob [=]]|[m' [= ->]]].
    repeat split. right. repeat split. now exists m'.
Qed.

Lemma refinement_outcome_witness :
  watercolourPainting
    (fst (handleEdit (alwaysRejects (ErrorObj "401 unauthorized"))
            showingParis emptyWorld)) = watercolourPainting showingParis /\
  editPrompt
    (fst (handleEdit (alwaysRejects (ErrorObj "401 unauthorized"))
            showingParis emptyWorld)) = "add a boat"%string.
Proof.
  destruct (refinement_outcome (alwaysRejects (ErrorObj "401 unauthorized"))
              showingParis emptyWorld eq_refl eq_refl)
    as (_ & _ & [(_ & _ & H & _)|(H1 & H2 & _)]).
  - discriminate H.
  - split; [exact H1 | exact H2].
Defined.

(** X14.  Submitting the refine form again right after a submission that
    left no error does nothing: a refinement that succeeded has emptied the
    instruction, so it is not sent twice. *)
Theorem refinement_not_repeated ai st w :
  error (fst (dispatch ai SubmitEdit st w)) = None ->
  dispatch ai SubmitEdit (fst (dispatch ai SubmitEdit st w))
    (snd (dispatch ai SubmitEdit st w)) =
  dispatch ai SubmitEdit st w.
Proof.
  cbn [dispatch].
  destruct (refineFormShown st && negb (editDisabled st)) eqn:Hguard;
    cbn [fst snd]; [|now rewrite Hguard].
  apply andb_true_iff in Hguard as [Hshown Hen].
  unfold refineFormShown in Hshown. apply andb_true_iff in Hshown as [Hpic Hload].
  unfold editDisabled in Hen. apply negb_true_iff in Hen.
  apply orb_false_iff in Hen as [Hed Htrim]. apply negb_false_iff in Htrim.
  destruct (refinement_outcome ai st w Htrim Hpic)
    as (_ & Hflag & [(_ & Hempty & _)|(_ & _ & m & Herr & _)]).
  - intros _.
    destruct (handleEdit ai st w) as [st' w']. cbn [fst snd] in *.
    unfold editDisabled. rewrite Hempty, Hflag. cbn.
    now rewrite andb_false_r.
  - rewrite Herr. discriminate.
Qed.

Lemma refinement_not_repeated_witness :
  dispatch (alwaysAnswers pngResponse) SubmitEdit
    (fst (dispatch (alwaysAnswers pngResponse) SubmitEdit showingParis emptyWorld))
    (snd (dispatch (alwaysAnswers pngResponse) SubmitEdit showingParis emptyWorld)) =
  dispatch (alwaysAnswers pngResponse) SubmitEdit showingParis emptyWorld.
Proof.
  apply (refinement_not_repeated (alwaysAnswers pngResponse) showingParis
           emptyWorld).
  reflexivity.
Defined.



(** *** handleDownload *)

Lemma safe_unit (c : ascii) :
  isSafeNameUnit
    (toLowerCaseUnit (if isLetterOrDigit c then c else "_"%char)) = true.
Proof.
  destruct c as [[] [] [] [] [] [] [] []]; vm_compute; reflexivity.
Qed.

Lemma safeName_units (s : string) :
  allUnits isSafeNameUnit (toLowerCase (replaceNonAlphanumeric s)) = true.
Proof.
  induction s as [|a s IH]; [reflexivity|].
  cbn [replaceNonAlphanumeric toLowerCase allUnits].
  now rewrite safe_unit, IH.
Qed.

Lemma safeName_length (s : string) :
  String.length (toLowerCase (replaceNonAlphanumeric s)) = String.length s.
Proof. induction s as [|a s IH]; simpl; [reflexivity | now rewrite IH]. Qed.

(** X16.  Nothing is downloaded while no picture is shown.  Otherwise the
    link points to the picture and its file name is [watercolor_], a
    non-empty body of lower-case ASCII letters, digits and underscores, and
    [.png]; the body has one character for each character of the place
    field, and is [painting] when the field is empty. *)
Theorem download_name st :
  (handleDownload st = None <-> watercolourPainting st = ""%string) /\
  (forall link,
      handleDownload st = Some link ->
      href link = watercolourPainting st /\
      exists body,
        download link = ("watercolor_" ++ body ++ ".png")%string /\
        body <> ""%string /\
        allUnits isSafeNameUnit body = true /\
        (place st <> ""%string ->
         String.length body = String.length (place st)) /\
        (place st = ""%string -> body = "painting"%string)).
Proof.
  unfold handleDownload.
  destruct (watercolourPainting st) as [|c pic] eqn:Hpic; cbn [truthy negb].
  - split; [tauto|]. discriminate.
  - split; [split; discriminate|]. intros link [= <-]. cbn [href download].
    split; [reflexivity|].
    pose proof (safeName_units (place st)) as Hunits.
    pose proof (safeName_length (place st)) as Hlen.
    destruct (toLowerCase (replaceNonAlphanumeric (place st)))
      as [|a body] eqn:Hbody; cbn [truthy].
    + exists "painting"%string. repeat split; try discriminate.
      intros Hne. destruct (place st); [congruence | discriminate].
    + exists (String a body). repeat split; try discriminate; auto.
      intros Hempty. rewrite Hempty in Hlen. discriminate.
Qed.

Lemma download_name_witness :
  exists body,
    ("watercolor_santorini_s_blue_domes.png")%string =
    ("watercolor_" ++ body ++ ".png")%string /\
    allUnits isSafeNameUnit body = true.
Proof.
  destruct (proj2 (download_name
                     {| place := "Santorini's blue domes"; editPrompt := "";
                        error := None; isLoading := false; isEditing := false;
                        watercolourPainting := "data:image/png;base64,iVBORw0KGgo=";
                        currentSuggestionIndex := 0 |})
              _ eq_refl) as (_ & body & Hname & _ & Hunits & _).
  exists body. split; [exact Hname | exact Hunits].
Defined.

End Component.
